(** * Executive Assistant: brief aggregation and ranking engine

    A shallow embedding of the TypeScript services
    [GmailService], [CalendarService] and [BriefService]
    (src/ExecutiveAssistantApp/src/services) and of the data types of
    src/ExecutiveAssistantApp/src/types/index.ts, followed by the
    properties of the engine.

    Conventions of the embedding.
    - A [Date] is its [getTime()] value: an integer number of
      milliseconds ([Z]).  Invalid dates ([NaN]) are outside the model.
    - [Date.now()] and [new Date()] are explicit arguments ([now]).
    - A string is the sequence of its UTF-16 code units, held as a
      [string]: a character of code [n] is the code unit [n].  The
      model covers the strings whose code units are below 256 (Basic
      Latin and Latin-1 Supplement, U+0000 to U+00FF); on these
      [toLowerCase] and the regular-expression class of white space are
      modelled in full.  Strings with other characters are outside the
      model.
    - An optional field ([x?: T], or a field the code reads through [?.]
      or [|| default]) is an [option].
    - A function that can throw returns an [option] ([None] = it threw).
    - [AsyncStorage] is a finite map from keys to the strings stored
      under them, and its operations do not fail.
    - What a call takes from outside (the answers of the two APIs, the
      readings of the clock, the token that [AuthService] refreshes) is
      an argument of the call. *)

From Stdlib Require Import Ascii.
From stdpp Require Import base list strings gmap sorting pretty.

Local Open Scope Z_scope.

(** ** ECMAScript built-ins used by the services *)

Module JS.

Section sort.
Context {A : Type} (cmp : A → A → Z).

(** [Array.prototype.sort(cmp)].  ECMAScript (2019 and later) requires
    the sort to be stable; for a consistent comparator the result is
    then the unique stable sorted arrangement, which insertion from the
    right computes: an element is placed before the first element it
    does not compare greater than, so it stays in front of the elements
    it ties with that followed it in the input. *)
Fixpoint sort_insert (x : A) (l : list A) : list A :=
  match l with
  | [] => [x]
  | y :: l' => if bool_decide (cmp x y ≤ 0) then x :: l else y :: sort_insert x l'
  end.

Definition sort (l : list A) : list A := foldr sort_insert [] l.
End sort.

(** A consistent comparator (ECMAScript, 23.1.3.30.1): the sign of
    [cmp a b] is that of a total preorder. *)
Class Consistent {A : Type} (cmp : A → A → Z) : Prop := {
  cmp_antisym : ∀ a b, cmp a b ≤ 0 ↔ 0 ≤ cmp b a;
  cmp_trans : ∀ a b c, cmp a b ≤ 0 → cmp b c ≤ 0 → cmp a c ≤ 0
}.

(** [for (let k = lo; k < hi; k++) state = body(k, state)] *)
Definition for_range {S : Type} (lo hi : nat) (body : nat → S → S) (s : S) : S :=
  foldl (λ s k, body k s) s (seq lo (hi - lo)).

(** [String.prototype.toLowerCase] on one code unit below 256.  The
    upper-case letters are A to Z (65 to 90) and U+00C0 to U+00DE
    (192 to 222) without the multiplication sign U+00D7 (215); the
    lower-case letter of each is 32 above it.  Every other code unit
    (digits, signs, the lower-case letters, U+00DF and U+00FF, whose
    upper-case forms are not single Latin-1 letters) is left as it
    is. *)
Definition is_upper (n : nat) : bool :=
  bool_decide (65 ≤ n ≤ 90)%nat
  || (bool_decide (192 ≤ n ≤ 222)%nat && negb (bool_decide (n = 215)%nat)).

Definition lower_unit (c : ascii) : ascii :=
  let n := nat_of_ascii c in
  if is_upper n then ascii_of_nat (n + 32) else c.

Fixpoint toLowerCase (s : string) : string :=
  match s with
  | EmptyString => EmptyString
  | String c s' => String (lower_unit c) (toLowerCase s')
  end.

(** [s.startsWith(p)] *)
Fixpoint startsWith (p s : string) : bool :=
  match p, s with
  | EmptyString, _ => true
  | String a p', String b s' => bool_decide (a = b) && startsWith p' s'
  | String _ _, EmptyString => false
  end.

(** [s.includes(p)]: [p] occurs in [s] at some position. *)
Fixpoint includes (s p : string) : bool :=
  startsWith p s ||
  match s with
  | EmptyString => false
  | String _ s' => includes s' p
  end.

(** [s.split(sep)] for a one-character separator. *)
Fixpoint split (sep : ascii) (s : string) : list string :=
  match s with
  | EmptyString => [EmptyString]
  | String c s' =>
      if bool_decide (c = sep) then EmptyString :: split sep s'
      else match split sep s' with
           | seg :: segs => String c seg :: segs
           | [] => [String c EmptyString]
           end
  end.

(** Truthiness of a string: the empty string is falsy. *)
Definition truthy (s : string) : bool := negb (bool_decide (s = EmptyString)).

(** [o || d] for an optional string [o]. *)
Definition or_default (o : option string) (d : string) : string :=
  match o with
  | Some s => if truthy s then s else d
  | None => d
  end.

(** [a.join(sep)] *)
Fixpoint join (sep : string) (l : list string) : string :=
  match l with
  | [] => EmptyString
  | [s] => s
  | s :: l' => s +:+ sep +:+ join sep l'
  end.

End JS.

(** ** types/index.ts *)

Module CalendarEvent.
Record t := mk {
  id : string;
  title : string;
  start : Z;
  end_ : Z;
  description : option string;
  location : option string;
  conflicts : option bool
}.

(** [event.conflicts = b] *)
Definition set_conflicts (b : bool) (e : t) : t :=
  mk (id e) (title e) (start e) (end_ e) (description e) (location e) (Some b).
End CalendarEvent.

Inductive Importance := high | medium | low.

Global Instance Importance_eq_dec : EqDecision Importance.
Proof. solve_decision. Defined.

Module EmailThread.
Record t := mk {
  id : string;
  subject : string;
  participants : list string;
  lastMessageDate : Z;
  isUnread : bool;
  urgencyScore : Z;
  importance : Importance;
  actionRequired : bool;
  rationale : option string;
  snippet : string
}.

(** [{...thread, rationale: r}] *)
Definition set_rationale (r : string) (e : t) : t :=
  mk (id e) (subject e) (participants e) (lastMessageDate e) (isUnread e)
     (urgencyScore e) (importance e) (actionRequired e) (Some r) (snippet e).
End EmailThread.

Module BriefData.
Record t := mk {
  id : string;
  timestamp : Z;
  calendarEvents : list CalendarEvent.t;
  topEmails : list EmailThread.t;
  allEmails : list EmailThread.t
}.
End BriefData.

Module AppSettings.
(** The two fields that [BriefService] reads. *)
Record t := mk {
  emailWindow : Z;
  calendarWindow : Z
}.
End AppSettings.

(** The outcome of [makeRequest] (lines 7-27 of both GmailService.ts and
    CalendarService.ts): the parsed body, or an exception (no access
    token, or a response that is not ok). *)
Inductive Response (A : Type) := ok (body : A) | threw.
Arguments ok {A} body.
Arguments threw {A}.

(** ** services/CalendarService.ts *)

Module CalendarService.
Import CalendarEvent.

(** A calendar date [d] of the Calendar API (the text of a day), held
    as the two instants that the code derives from it:
    [new Date(d + 'T00:00:00')] and [new Date(d + 'T23:59:59')], both
    read in the time zone of the device.  Nothing is assumed of their
    distance: a day of the device has 23, 24 or 25 hours. *)
Record LocalDate := mkLocalDate {
  T00_00_00 : Z;
  T23_59_59 : Z
}.

(** [eventData.start] / [eventData.end] of the Calendar API: a timed
    event carries [dateTime], an all-day event carries [date].
    [dateTime t] is held as the instant [t] of the [dateTime] string. *)
Inductive EventTime := dateTime (t : Z) | date (d : LocalDate).

Record EventData := mkEventData {
  ed_id : string;
  ed_summary : option string;
  ed_start : option EventTime;
  ed_end : option EventTime;
  ed_description : option string;
  ed_location : option string
}.

(** [x || undefined] on an optional string. *)
Definition or_undefined (o : option string) : option string :=
  match o with
  | Some s => if JS.truthy s then Some s else None
  | None => None
  end.

(** [parseEvent], lines 85-113.  An all-day event starts at 00:00:00
    of its start date and ends at 23:59:59 of its end date. *)
Definition parseEvent (eventData : EventData) : option t :=
  match ed_start eventData, ed_end eventData with
  | Some s, Some e =>
      let start := match s with dateTime t => t | date d => T00_00_00 d end in
      let end_ := match e with dateTime t => t | date d => T23_59_59 d end in
      Some (mk (ed_id eventData)
               (JS.or_default (ed_summary eventData) "No Title")
               start end_
               (or_undefined (ed_description eventData))
               (or_undefined (ed_location eventData))
               (Some false))
  | _, _ => None
  end.

(** [eventsOverlap], lines 134-136. *)
Definition eventsOverlap (event1 event2 : t) : bool :=
  bool_decide (start event1 < end_ event2) && bool_decide (start event2 < end_ event1).

(** The comparator of line 116: [a.start.getTime() - b.start.getTime()]. *)
Definition by_start (a b : t) : Z := start a - start b.

(** The body of the inner loop, lines 120-127.  [event1] and [event2]
    are the objects at indices [i] and [j] of [sortedEvents]; the two
    assignments update them in place. *)
Definition mark_pair (i j : nat) (sortedEvents : list t) : list t :=
  match sortedEvents !! i, sortedEvents !! j with
  | Some event1, Some event2 =>
      if eventsOverlap event1 event2
      then alter (set_conflicts true) j (alter (set_conflicts true) i sortedEvents)
      else sortedEvents
  | _, _ => sortedEvents
  end.

(** The two nested loops, lines 118-129. *)
Definition mark_conflicts (sortedEvents : list t) : list t :=
  let n := length sortedEvents in
  JS.for_range 0 n (λ i, JS.for_range (S i) n (λ j, mark_pair i j)) sortedEvents.

(** [detectConflicts], lines 115-132. *)
Definition detectConflicts (events : list t) : list t :=
  mark_conflicts (JS.sort by_start events).

(** The part of [getEventsFromWindow] after the request has returned
    [items], lines 74-78: [items.map(parseEvent).filter(Boolean)] and
    conflict detection. *)
Definition eventsOfItems (items : list EventData) : list t :=
  detectConflicts (omap parseEvent items).

(** The Calendar API during one call: [api timeMin timeMax] answers the
    request of lines 70-72 with [response.items] (possibly absent). *)
Definition Api := Z → Z → Response (option (list EventData)).

(** [getEventsFromWindow], lines 57-83. *)
Definition getEventsFromWindow (api : Api) (hoursAhead : Z) (now : Z) : list t :=
  let future := now + hoursAhead * 60 * 60 * 1000 in
  match api now future with
  | threw => []
  | ok items => eventsOfItems (default [] items)
  end.
End CalendarService.

(** ** services/GmailService.ts *)

(** The raw thread resource of the Gmail API, as far as the service
    reads it.  A field is optional exactly where the code guards its
    access ([?.] or [|| default]).  [internalDate] holds the value of
    [parseInt(latestMessage.internalDate)]. *)
Module Raw.
Record Header := mkHeader { name : string; value : string }.
Record Payload := mkPayload { headers : option (list Header) }.
Record Message := mkMessage {
  internalDate : Z;
  labelIds : option (list string);
  payload : option Payload;
  snippet : option string
}.
Record ThreadData := mkThread {
  id : string;
  messages : option (list Message)
}.
End Raw.

Module GmailService.
Import Raw.

Definition hour : Z := 1000 * 60 * 60.

(** [hoursAgo < h] where [hoursAgo = age / (1000 * 60 * 60)] and [age]
    is a difference of two instants: the quotient is below the integer
    [h] exactly when [age] is below [h] hours of milliseconds. *)
Definition hoursAgo_lt (age h : Z) : bool := bool_decide (age < h * hour).

(** [message.labelIds?.includes(label)] *)
Definition has_label (label : string) (m : Message) : bool :=
  match labelIds m with
  | Some ls => bool_decide (label ∈ ls)
  | None => false
  end.

(** [message?.payload?.headers], [undefined] when a link is missing. *)
Definition headers_of (m : option Message) : option (list Header) :=
  (m ≫= payload) ≫= headers.

(** [headers?.find(h => h.name === n)?.value || ''] *)
Definition header_exact (n : string) (hs : option (list Header)) : string :=
  JS.or_default (value <$> (hs ≫= List.find (λ h, bool_decide (name h = n)))) "".

Definition urgentKeywords : list string :=
  ["urgent"; "asap"; "immediate"; "deadline"; "emergency"; "critical"].

(** The four signals of [calculateUrgencyScore], lines 147-167. *)
Definition recency_points (age : Z) : Z :=
  if hoursAgo_lt age 2 then 3
  else if hoursAgo_lt age 24 then 2
  else if hoursAgo_lt age 72 then 1
  else 0.

Definition label_points (label : string) (m : Message) : Z :=
  if has_label label m then 2 else 0.

Definition keyword_points (subject : string) : Z :=
  if existsb (λ keyword, JS.includes subject keyword) urgentKeywords then 3 else 0.

(** The subject that line 160 reads: the [Subject] header (exact
    name) of the first message, lower-cased. *)
Definition scored_subject (msgs : list Message) : string :=
  JS.toLowerCase (header_exact "Subject" (headers_of (head msgs))).

(** [calculateUrgencyScore], lines 142-170.  With no message,
    [latestMessage] is [undefined] and line 148 throws. *)
Definition calculateUrgencyScore (threadData : ThreadData) (now : Z) : option Z :=
  let msgs := default [] (messages threadData) in
  match last msgs with
  | None => None
  | Some latestMessage =>
      let score := 0 in
      let score := score + recency_points (now - internalDate latestMessage) in
      let score := score + label_points "UNREAD" latestMessage in
      let score := score + label_points "IMPORTANT" latestMessage in
      let score := score + keyword_points (scored_subject msgs) in
      Some (Z.min score 10)
  end.

(** *** [extractEmailAddress], lines 137-140 *)

(** The longest [>]-free prefix of [s], when a [>] follows it. *)
Fixpoint until_gt (s : string) : option string :=
  match s with
  | EmptyString => None
  | String c s' =>
      if bool_decide (c = ">"%char) then Some EmptyString
      else String c <$> until_gt s'
  end.

(** Group 1 of the leftmost match of [/<([^>]+)>/]. *)
Fixpoint match_angle (s : string) : option string :=
  match s with
  | EmptyString => None
  | String c s' =>
      if bool_decide (c = "<"%char) then
        match until_gt s' with
        | Some (String a m) => Some (String a m)
        | _ => match_angle s'
        end
      else match_angle s'
  end.

(** [\s], the white space and line terminators of ECMAScript, among
    the code units below 256: tab, line feed, vertical tab, form feed,
    carriage return (9 to 13), space (32) and no-break space U+00A0
    (160). *)
Definition is_space (c : ascii) : bool :=
  let n := nat_of_ascii c in
  bool_decide (9 ≤ n ≤ 13)%nat || bool_decide (n = 32)%nat || bool_decide (n = 160)%nat.

(** The complement of the class [[^\s<>]]. *)
Definition is_delim (c : ascii) : bool :=
  is_space c || bool_decide (c = "<"%char) || bool_decide (c = ">"%char).

(** The maximal runs of non-delimiters of [s]. *)
Fixpoint runs (s : string) : list string :=
  match s with
  | EmptyString => [EmptyString]
  | String c s' =>
      if is_delim c then EmptyString :: runs s'
      else match runs s' with
           | r :: rs => String c r :: rs
           | [] => [String c EmptyString]
           end
  end.

(** [s] has an [@] that is not its last character. *)
Fixpoint at_before_last (s : string) : bool :=
  match s with
  | String c (String _ _ as s') => bool_decide (c = "@"%char) || at_before_last s'
  | _ => false
  end.

(** A run matches [[^\s<>]+@[^\s<>]+] iff it has an [@] that is
    neither its first nor its last character; the match is then the
    whole run (both [+] are greedy and [@] is in the class). *)
Definition has_inner_at (run : string) : bool :=
  match run with
  | String _ rest => at_before_last rest
  | EmptyString => false
  end.

(** Group 1 of the leftmost match of [/([^\s<>]+@[^\s<>]+)/]. *)
Definition match_bare (s : string) : option string :=
  List.find has_inner_at (runs s).

Definition extractEmailAddress (emailString : string) : string :=
  match match_angle emailString with
  | Some m => m
  | None =>
      match match_bare emailString with
      | Some m => m
      | None => emailString
      end
  end.

(** [getFromEmail], lines 186-191. *)
Definition getFromEmail (threadData : ThreadData) : string :=
  let firstMessage := messages threadData ≫= head in
  extractEmailAddress (header_exact "From" (headers_of firstMessage)).

Definition vipDomains : list string := ["company.com"; "client.com"].

(** [isVIPSender], lines 193-199. *)
Definition isVIPSender (email : string) : bool :=
  match JS.split "@"%char email !! 1%nat with
  | Some domain => bool_decide (JS.toLowerCase domain ∈ vipDomains)
  | None => false
  end.

(** The decision of lines 181-183. *)
Definition classify (urgencyScore : Z) (isFromVIP : bool) : Importance :=
  if bool_decide (7 ≤ urgencyScore) || isFromVIP then high
  else if bool_decide (4 ≤ urgencyScore) then medium
  else low.

(** [calculateImportance], lines 172-184. *)
Definition calculateImportance (threadData : ThreadData) (now : Z) : option Importance :=
  urgencyScore ← calculateUrgencyScore threadData now;
  let fromEmail := getFromEmail threadData in
  let isFromVIP := isVIPSender fromEmail in
  Some (classify urgencyScore isFromVIP).

Definition actionKeywords : list string :=
  ["please"; "can you"; "could you"; "would you"; "need you to";
   "action required"; "response needed"; "reply"; "confirm";
   "review"; "approve"; "sign"; "meeting"].

(** [determineActionRequired], lines 201-214. *)
Definition determineActionRequired (threadData : ThreadData) : option bool :=
  latestMessage ← last (default [] (messages threadData));
  let snippet := JS.or_default (JS.toLowerCase <$> snippet latestMessage) "" in
  Some (existsb (λ keyword, JS.includes snippet keyword) actionKeywords).

(** [getHeader] of [parseThread], lines 96-97: the header name is
    compared case-insensitively. *)
Definition getHeader (hs : list Header) (n : string) : string :=
  JS.or_default
    (value <$> List.find (λ h, bool_decide (JS.toLowerCase (name h) = JS.toLowerCase n)) hs) "".

(** [parseThread], lines 88-135.  [now] and [now'] are the clock
    readings of the calls of lines 116 and 117. *)
Definition parseThread (threadData : ThreadData) (now now' : Z) : option EmailThread.t :=
  let msgs := default [] (messages threadData) in
  latestMessage ← last msgs;
  let hs := default [] (headers_of (Some latestMessage)) in
  let subject := JS.or_default (Some (getHeader hs "Subject")) "No Subject" in
  let from := getHeader hs "From" in
  let to := getHeader hs "To" in
  let participants :=
    List.filter JS.truthy (extractEmailAddress <$> List.filter JS.truthy [from; to]) in
  let isUnread := has_label "UNREAD" latestMessage in
  let snippet := JS.or_default (snippet latestMessage) "" in
  urgencyScore ← calculateUrgencyScore threadData now;
  importance ← calculateImportance threadData now';
  actionRequired ← determineActionRequired threadData;
  Some (EmailThread.mk (id threadData) subject participants
          (internalDate latestMessage) isUnread urgencyScore importance
          actionRequired None snippet).

(** [generateRationale], lines 237-258. *)
Definition generateRationale (now : Z) (thread : EmailThread.t) : string :=
  let reasons :=
    (if bool_decide (7 ≤ EmailThread.urgencyScore thread) then ["High urgency score"] else []) ++
    (if EmailThread.isUnread thread then ["Unread message"] else []) ++
    (if EmailThread.actionRequired thread then ["Action required"] else []) ++
    (if hoursAgo_lt (now - EmailThread.lastMessageDate thread) 24
     then ["Recent message"] else []) in
  JS.or_default (Some (JS.join ", " reasons)) "Standard priority".

(** [importanceWeight], line 224. *)
Definition importanceWeight (i : Importance) : Z :=
  match i with high => 3 | medium => 2 | low => 1 end.

(** The comparator of lines 222-234. *)
Definition by_rank (a b : EmailThread.t) : Z :=
  let importanceDiff :=
    importanceWeight (EmailThread.importance b) - importanceWeight (EmailThread.importance a) in
  if bool_decide (importanceDiff ≠ 0) then importanceDiff
  else
    let urgencyDiff := EmailThread.urgencyScore b - EmailThread.urgencyScore a in
    if bool_decide (urgencyDiff ≠ 0) then urgencyDiff
    else EmailThread.lastMessageDate b - EmailThread.lastMessageDate a.

(** [rankThreads], lines 216-235. *)
Definition rankThreads (now : Z) (threads : list EmailThread.t) : list EmailThread.t :=
  JS.sort by_rank
    ((λ thread, EmailThread.set_rationale (generateRationale now thread) thread) <$> threads).

(** What the service takes from outside during one call.
    [threads_list after] answers the listing request of lines 64-66
    with [threadsResponse.threads] (possibly absent), [threads_get id]
    the detail request of lines 71-73.  The clock is read anew at each
    [Date.now()]: [now_score id] and [now_tier id] are the readings of
    line 148 while the thread [id] is parsed, first for its score
    (line 116), then for its tier (line 117, through line 173);
    [now_rank] is the reading of line 253, once all threads have been
    fetched.  No order is assumed between the readings. *)
Record Api := mkApi {
  threads_list : Z → Response (option (list string));
  threads_get : string → Response ThreadData;
  now_score : string → Z;
  now_tier : string → Z;
  now_rank : Z
}.

(** Lines 75-78 for the thread requested under [threadId]. *)
Definition parsed (api : Api) (threadId : string) (threadDetail : ThreadData)
    : option EmailThread.t :=
  parseThread threadDetail (now_score api threadId) (now_tier api threadId).

(** The loop of lines 70-79; [None] when a request threw. *)
Fixpoint collect (api : Api) (ids : list string) : option (list EmailThread.t) :=
  match ids with
  | [] => Some []
  | threadId :: ids' =>
      match threads_get api threadId with
      | threw => None
      | ok threadDetail =>
          threads ← collect api ids';
          Some (match parsed api threadId threadDetail with
                | Some emailThread => emailThread :: threads
                | None => threads
                end)
      end
  end.

(** [getEmailsFromWindow], lines 59-86; [now] is the reading of the
    clock of line 60. *)
Definition getEmailsFromWindow (api : Api) (hoursBack : Z) (now : Z) : list EmailThread.t :=
  let after := (now - hoursBack * 60 * 60 * 1000) `div` 1000 in
  match threads_list api after with
  | threw => []
  | ok threads =>
      match collect api (default [] threads) with
      | None => []
      | Some threads => rankThreads (now_rank api) threads
      end
  end.
(** The comparator of lines 50-52. *)
Definition by_date (a b : EmailThread.t) : Z :=
  EmailThread.lastMessageDate b - EmailThread.lastMessageDate a.

(** [getThreads], lines 29-57; [listing] answers the request of lines
    32-34.  The loop of lines 39-48 is the loop of [collect]. *)
Definition getThreads (listing : Response (option (list string))) (api : Api)
    : list EmailThread.t :=
  match listing with
  | threw => []
  | ok threads =>
      match collect api (default [] threads) with
      | None => []
      | Some threads => JS.sort by_date threads
      end
  end.
End GmailService.

(** ** services/BriefService.ts *)

Module BriefService.

Definition BRIEF_CACHE_KEY : string := "cached_brief_data".
Definition BRIEF_TIMESTAMP_KEY : string := "brief_timestamp".
Definition BRIEF_CACHE_DURATION : Z := 5 * 60 * 1000.

(** A string held by [AsyncStorage], represented by the value it is
    the text of: [json b] is [JSON.stringify(b)], [iso t] is
    [new Date(t).toISOString()]; these are the only strings the
    service writes.  [tokens text] is the text of a token object, which
    [AuthService.getAccessToken] writes (AuthService.ts, lines 228-231)
    when a request of the service finds the access token expired.  All
    are non-empty, hence truthy. *)
Inductive Stored := json (b : BriefData.t) | iso (t : Z) | tokens (text : string).

Abbreviation Storage := (gmap string Stored).

(** [new Date(s).getTime()]; [None] is [NaN] (an invalid date). *)
Definition Date_getTime (s : Stored) : option Z :=
  match s with
  | iso t => Some t
  | json _ | tokens _ => None
  end.

(** Lines 76-91: [JSON.parse] followed by the conversion of the date
    strings back to dates; [None] when a line throws: [JSON.parse] on
    a date string, line 79 on a token object, which has no
    [calendarEvents]. *)
Definition JSON_parse (s : Stored) : option BriefData.t :=
  match s with
  | json b => Some b
  | iso _ | tokens _ => None
  end.

(** The key of line 228 for the account [accountId]. *)
Definition tokens_key (accountId : string) : string := "tokens_" +:+ accountId.

(** The writes of line 228, in their order: the account and the text
    written for it. *)
Definition write_tokens (writes : list (string * string)) (st : Storage) : Storage :=
  foldl (λ st w, <[tokens_key w.1 := tokens w.2]> st) st writes.

(** [clearCache], lines 111-120. *)
Definition clearCache (st : Storage) : Storage :=
  delete BRIEF_TIMESTAMP_KEY (delete BRIEF_CACHE_KEY st).

(** [cacheBrief], lines 100-109; [now] is the [new Date()] of line 104. *)
Definition cacheBrief (briefData : BriefData.t) (now : Z) (st : Storage) : Storage :=
  <[BRIEF_TIMESTAMP_KEY := iso now]> (<[BRIEF_CACHE_KEY := json briefData]> st).

(** The test of line 71.  A comparison with [NaN] is false. *)
Definition expired (now : Z) (timestamp : option Z) : bool :=
  match timestamp with
  | Some t => bool_decide (now - t > BRIEF_CACHE_DURATION)
  | None => false
  end.

(** [getCachedBrief], lines 56-98: the result and the storage it
    leaves. *)
Definition getCachedBrief (now : Z) (st : Storage) : option BriefData.t * Storage :=
  match st !! BRIEF_CACHE_KEY, st !! BRIEF_TIMESTAMP_KEY with
  | Some cachedData, Some timestampStr =>
      if expired now (Date_getTime timestampStr) then (None, clearCache st)
      else (JSON_parse cachedData, st)
  | _, _ => (None, st)
  end.

(** [settings?.emailWindow || 96]: a zero window is falsy. *)
Definition window_or (w : option Z) (d : Z) : Z :=
  match w with
  | Some h => if bool_decide (h = 0) then d else h
  | None => d
  end.

(** What one run of [generateBrief] takes from the clock and from
    [AuthService]: the readings [new Date()] of line 68, the instant of
    the two source requests, [Date.now()] of line 30, [new Date()] of
    line 31 and [new Date()] of line 104; and [t_tokens], the token
    entries that the requests of the run rewrite (each request goes
    through [AuthService.getAccessToken]). *)
Record Clock := mkClock {
  t_check : Z;
  t_fetch : Z;
  t_id : Z;
  t_stamp : Z;
  t_cache : Z;
  t_tokens : list (string * string)
}.

(** Lines 29-35. *)
Definition assemble (t_id t_stamp : Z)
    (emails : list EmailThread.t) (calendarEvents : list CalendarEvent.t) : BriefData.t :=
  BriefData.mk ("brief_" +:+ pretty t_id) t_stamp calendarEvents (take 3 emails) emails.

(** Lines 29-40, run once both source requests have been answered.
    The token entries are rewritten while the requests run; no function
    of the service reads them, and they are taken to be written when
    the requests have answered. *)
Definition complete (clock : Clock)
    (emails : list EmailThread.t) (calendarEvents : list CalendarEvent.t)
    (st : Storage) : BriefData.t * Storage :=
  let briefData := assemble (t_id clock) (t_stamp clock) emails calendarEvents in
  (briefData, cacheBrief briefData (t_cache clock) (write_tokens (t_tokens clock) st)).

(** [generateBrief], lines 12-45. *)
Definition generateBrief (settings : option AppSettings.t)
    (gmail : GmailService.Api) (calendar : CalendarService.Api)
    (clock : Clock) (st : Storage) : BriefData.t * Storage :=
  match getCachedBrief (t_check clock) st with
  | (Some cachedBrief, st') => (cachedBrief, st')
  | (None, st') =>
      let emailWindow := window_or (AppSettings.emailWindow <$> settings) 96 in
      let calendarWindow := window_or (AppSettings.calendarWindow <$> settings) 24 in
      let emails := GmailService.getEmailsFromWindow gmail emailWindow (t_fetch clock) in
      let calendarEvents :=
        CalendarService.getEventsFromWindow calendar calendarWindow (t_fetch clock) in
      complete clock emails calendarEvents st'
  end.

(** *** Interleaved calls of [generateBrief]

    JavaScript runs one call at a time and switches at an [await].  A
    call of [generateBrief] waits twice: for the cache, line 15, and
    for the two source requests, line 24.  The storage accesses of one
    cache lookup, and of one [cacheBrief], are taken as one step. *)
Inductive Call :=
| checking                     (** waiting at line 15 *)
| generating                   (** waiting at line 24: its requests are in flight *)
| returned (b : BriefData.t).

Record System := mkSystem {
  storage : Storage;
  calls : list Call
}.

Inductive Resume :=
| cache_read (i : nat) (now : Z)
    (** the storage reads of call [i] resolve: lines 16-27 run *)
| sources_answered (i : nat) (clock : Clock)
    (emails : list EmailThread.t) (calendarEvents : list CalendarEvent.t).
    (** both requests of call [i] resolve: lines 29-40 run *)

Definition step (r : Resume) (s : System) : System :=
  match r with
  | cache_read i now =>
      match calls s !! i with
      | Some checking =>
          match getCachedBrief now (storage s) with
          | (Some cachedBrief, st') => mkSystem st' (<[i := returned cachedBrief]> (calls s))
          | (None, st') => mkSystem st' (<[i := generating]> (calls s))
          end
      | _ => s
      end
  | sources_answered i clock emails calendarEvents =>
      match calls s !! i with
      | Some generating =>
          let '(briefData, st') := complete clock emails calendarEvents (storage s) in
          mkSystem st' (<[i := returned briefData]> (calls s))
      | _ => s
      end
  end.

Definition run (schedule : list Resume) (s : System) : System :=
  foldl (λ s r, step r s) s schedule.

(** The number of generations in flight. *)
Definition is_generating (c : Call) : bool :=
  match c with generating => true | _ => false end.

Definition in_flight (s : System) : nat :=
  length (List.filter is_generating (calls s)).

(** [n] callers have just invoked [generateBrief]. *)
Definition invoked (n : nat) (st : Storage) : System :=
  mkSystem st (replicate n checking).

(** [invalidateCache], lines 172-174. *)
Definition invalidateCache (st : Storage) : Storage := clearCache st.

(** [getScheduledBrief], lines 47-54. *)
Definition getScheduledBrief (now : Z) (st : Storage) : option BriefData.t * Storage :=
  getCachedBrief now st.

(** [getLastBriefTimestamp], lines 122-129: [null], or the date of the
    stored string (an invalid date when the string is no date). *)
Definition getLastBriefTimestamp (st : Storage) : option (option Z) :=
  Date_getTime <$> st !! BRIEF_TIMESTAMP_KEY.

End BriefService.

(** ** screens: BriefScreen (in EmailDetailScreen.tsx) *)

Module BriefScreen.
Import BriefService.

(** [loadBrief], lines 664-675: [generateBrief] is called without
    settings. *)
Definition loadBrief (gmail : GmailService.Api) (calendar : CalendarService.Api)
    (clock : Clock) (st : Storage) : BriefData.t * Storage :=
  generateBrief None gmail calendar clock st.

(** [onRefresh], lines 676-681: [invalidateCache], then [loadBrief]. *)
Definition onRefresh (gmail : GmailService.Api) (calendar : CalendarService.Api)
    (clock : Clock) (st : Storage) : BriefData.t * Storage :=
  loadBrief gmail calendar clock (invalidateCache st).

(** [emailsToShow], line 735. *)
Definition emailsToShow (showAllEmails : bool) (briefData : BriefData.t) : list EmailThread.t :=
  if showAllEmails then BriefData.allEmails briefData else BriefData.topEmails briefData.

(** The condition under which the toggle button is rendered, line 744. *)
Definition toggle_shown (briefData : BriefData.t) : bool :=
  bool_decide (3 < length (BriefData.allEmails briefData))%nat.
End BriefScreen.

(** ** services/LLMService.ts (lines 279-482 of the GmailService.ts text) *)

Module LLMService.

(** [mockThreadSummary], lines 420-424. *)
Definition mockThreadSummary (thread : EmailThread.t) : string :=
  let words := JS.split " " (EmailThread.snippet thread) in
  let summary := JS.join " " (take 15 words) in
  if bool_decide (String.length summary < String.length (EmailThread.snippet thread))%nat
  then summary +:+ "..."
  else summary.

End LLMService.

(** ** services/ActivityLogService.ts (lines 482-792 of the GmailService.ts text) *)

Module ActivityLogEntry.
Inductive Action := draft_generated | email_sent | email_snoozed | brief_generated.

Global Instance Action_eq_dec : EqDecision Action.
Proof. solve_decision. Defined.

Record t := mk {
  id : string;
  timestamp : Z;
  action : Action;
  details : string;
  threadId : option string
}.
End ActivityLogEntry.

Module ActivityLogService.
Import ActivityLogEntry.

Definition MAX_LOG_ENTRIES : nat := 1000.

(** The string stored under [ACTIVITY_LOG_KEY], held as the list of
    entries it is the JSON text of; [None] when the key is absent. *)
Definition Log := option (list t).

(** [a.slice(0, e)] for an integer [e]: a negative [e] counts from the
    end. *)
Definition slice0 {A : Type} (e : Z) (a : list A) : list A :=
  if bool_decide (e < 0) then take (Z.to_nat (Z.of_nat (length a) + e)) a
  else take (Z.to_nat e) a.

(** [getActivityLog], lines 517-535. *)
Definition getActivityLog (limit : option Z) (log : Log) : list t :=
  match log with
  | None => []
  | Some entries =>
      match limit with
      | Some l => if bool_decide (l = 0) then entries else slice0 l entries
      | None => entries
      end
  end.

(** The text of an action, for [entry.action.toLowerCase()]. *)
Definition action_text (a : Action) : string :=
  match a with
  | draft_generated => "draft_generated"
  | email_sent => "email_sent"
  | email_snoozed => "email_snoozed"
  | brief_generated => "brief_generated"
  end.

(** [logActivity], lines 489-515.  [t_id] and [t_stamp] are the clock
    readings of lines 496 and 497, [suffix] the text drawn from
    [Math.random()]. *)
Definition logActivity (a : Action) (details : string) (threadId : option string)
    (t_id t_stamp : Z) (suffix : string) (log : Log) : Log :=
  let entry := mk ("activity_" +:+ pretty t_id +:+ "_" +:+ suffix) t_stamp a details threadId in
  let existingEntries := getActivityLog None log in
  let updatedEntries := entry :: existingEntries in
  let trimmedEntries := take MAX_LOG_ENTRIES updatedEntries in
  Some trimmedEntries.

(** [getActivityLogByType], lines 537-545. *)
Definition getActivityLogByType (a : Action) (limit : option Z) (log : Log) : list t :=
  let filteredEntries := List.filter (λ entry, bool_decide (action entry = a))
                           (getActivityLog None log) in
  match limit with
  | Some l => if bool_decide (l = 0) then filteredEntries else slice0 l filteredEntries
  | None => filteredEntries
  end.

(** [getActivityLogByThread], lines 547-550. *)
Definition getActivityLogByThread (i : string) (log : Log) : list t :=
  List.filter (λ entry, bool_decide (threadId entry = Some i)) (getActivityLog None log).

(** [getActivityLogForTimeRange], lines 552-561. *)
Definition getActivityLogForTimeRange (startDate endDate : Z) (log : Log) : list t :=
  List.filter (λ entry, bool_decide (startDate ≤ timestamp entry)
                        && bool_decide (timestamp entry ≤ endDate))
    (getActivityLog None log).

(** [clearActivityLog], lines 580-587. *)
Definition clearActivityLog (log : Log) : Log := None.

(** [clearOldEntries], lines 589-603, from line 594 on; [cutoffDate] is
    the date computed by lines 591-592. *)
Definition clearOldEntries (cutoffDate : Z) (log : Log) : Log :=
  Some (List.filter (λ entry, bool_decide (cutoffDate ≤ timestamp entry))
          (getActivityLog None log)).

(** The object that [getActivityStats] returns. *)
Record Stats := mkStats {
  totalActivities : nat;
  briefsGenerated : nat;
  emailsSent : nat;
  emailsSnoozed : nat;
  draftsGenerated : nat;
  activitiesByDay : gmap string nat
}.

(** The body of the [forEach] of lines 650-670; [toDateString] is
    [Date.prototype.toDateString]. *)
Definition count_entry (toDateString : Z → string) (stats : Stats) (entry : t) : Stats :=
  let stats :=
    match action entry with
    | brief_generated =>
        mkStats (totalActivities stats) (S (briefsGenerated stats)) (emailsSent stats)
          (emailsSnoozed stats) (draftsGenerated stats) (activitiesByDay stats)
    | email_sent =>
        mkStats (totalActivities stats) (briefsGenerated stats) (S (emailsSent stats))
          (emailsSnoozed stats) (draftsGenerated stats) (activitiesByDay stats)
    | email_snoozed =>
        mkStats (totalActivities stats) (briefsGenerated stats) (emailsSent stats)
          (S (emailsSnoozed stats)) (draftsGenerated stats) (activitiesByDay stats)
    | draft_generated =>
        mkStats (totalActivities stats) (briefsGenerated stats) (emailsSent stats)
          (emailsSnoozed stats) (S (draftsGenerated stats)) (activitiesByDay stats)
    end in
  let dateKey := toDateString (timestamp entry) in
  mkStats (totalActivities stats) (briefsGenerated stats) (emailsSent stats)
    (emailsSnoozed stats) (draftsGenerated stats)
    (<[dateKey := (default 0 (activitiesByDay stats !! dateKey) + 1)%nat]>
       (activitiesByDay stats)).

(** [getActivityStats], lines 627-684; [now] is the [new Date()] of
    line 636. *)
Definition getActivityStats (toDateString : Z → string) (days : Z) (now : Z) (log : Log)
    : Stats :=
  let endDate := now in
  let startDate := endDate - days * 24 * 60 * 60 * 1000 in
  let entries := getActivityLogForTimeRange startDate endDate log in
  foldl (count_entry toDateString) (mkStats (length entries) 0 0 0 0 ∅) entries.

(** [searchActivityLog], lines 752-765. *)
Definition searchActivityLog (query : string) (log : Log) : list t :=
  let lowerQuery := JS.toLowerCase query in
  List.filter (λ entry, JS.includes (JS.toLowerCase (details entry)) lowerQuery
                        || JS.includes (JS.toLowerCase (action_text (action entry))) lowerQuery)
    (getActivityLog None log).

(** [getTotalActivityCount], lines 768-771. *)
Definition getTotalActivityCount (log : Log) : nat := length (getActivityLog None log).

(** [checkStorageHealth], lines 774-789: [totalEntries], [isNearLimit],
    [shouldCleanup].  [totalEntries > MAX_LOG_ENTRIES * 0.8] compares an
    integer with 800. *)
Definition checkStorageHealth (log : Log) : nat * bool * bool :=
  let totalEntries := length (getActivityLog None log) in
  let isNearLimit := bool_decide (800 < totalEntries)%nat in
  let shouldCleanup := bool_decide (MAX_LOG_ENTRIES ≤ totalEntries)%nat in
  (totalEntries, isNearLimit, shouldCleanup).
End ActivityLogService.

(** ** AppInitializer (src/unnamed/part_002) *)

Module AppInitializer.
Import ActivityLogService.

(** [performMaintenance], lines 67-81; [cutoffDate] is the date that
    [clearOldEntries(30)] computes. *)
Definition performMaintenance (cutoffDate : Z) (log : Log) : Log :=
  let '(_, _, shouldCleanup) := checkStorageHealth log in
  if shouldCleanup then clearOldEntries cutoffDate log else log.
End AppInitializer.

(** * Properties *)

(** ** [Array.prototype.sort] *)

Section sort_facts.
Context {A : Type} (cmp : A → A → Z).

(** [a] may stand before [b]. *)
Definition before (a b : A) : Prop := cmp a b ≤ 0.

(** [a] and [b] tie. *)
Definition tied (a b : A) : Prop := cmp a b = 0.

Global Instance before_dec a b : Decision (before a b).
Proof. unfold before. apply _. Defined.

Global Instance tied_dec a b : Decision (tied a b).
Proof. unfold tied. apply _. Defined.

Lemma sort_insert_perm x l : JS.sort_insert cmp x l ≡ₚ x :: l.
Proof.
  induction l as [|y l IH]; simpl; [done|].
  case_bool_decide; [done|].
  rewrite IH. apply Permutation_swap.
Qed.

Lemma sort_perm l : JS.sort cmp l ≡ₚ l.
Proof.
  induction l as [|x l IH]; simpl; [done|].
  unfold JS.sort in IH. by rewrite sort_insert_perm, IH.
Qed.

Lemma sort_length l : length (JS.sort cmp l) = length l.
Proof. by rewrite sort_perm. Qed.

Context `{!JS.Consistent cmp}.

Lemma not_before_flip a b : ¬ before a b → before b a.
Proof.
  unfold before. intros Hab.
  destruct (decide (cmp b a ≤ 0)) as [|Hba]; [done|].
  exfalso. apply Hab. apply JS.cmp_antisym.
  assert (¬ 0 ≤ cmp a b) as Hn by (intros H0; apply Hba, JS.cmp_antisym, H0).
  assert (cmp a b ≤ 0) as Hle by lia.
  apply JS.cmp_antisym in Hle. done.
Qed.

Lemma tied_sym a b : tied a b → tied b a.
Proof.
  unfold tied. intros Hab.
  assert (cmp a b ≤ 0) as H1 by lia.
  assert (0 ≤ cmp a b) as H2 by lia.
  apply JS.cmp_antisym in H1. apply JS.cmp_antisym in H2. lia.
Qed.

Lemma tied_before a b : tied a b → before a b.
Proof. unfold tied, before. lia. Qed.

Lemma sort_insert_sorted x l :
  StronglySorted before l → StronglySorted before (JS.sort_insert cmp x l).
Proof.
  induction l as [|y l IH]; simpl; intros Hs.
  - repeat constructor.
  - apply StronglySorted_cons in Hs as [Hy Hl].
    case_bool_decide as Hxy.
    + apply StronglySorted_cons. split; [|by apply StronglySorted_cons].
      constructor; [done|].
      eapply Forall_impl; [exact Hy|].
      intros z Hyz. by eapply JS.cmp_trans.
    + apply StronglySorted_cons. split; [|by apply IH].
      rewrite sort_insert_perm. constructor; [|done].
      by apply not_before_flip.
Qed.

Lemma sort_sorted l : StronglySorted before (JS.sort cmp l).
Proof.
  induction l as [|x l IH]; simpl; [constructor|].
  by apply sort_insert_sorted.
Qed.

(** Stability: the elements that tie with [x] keep their input order. *)
Lemma sort_insert_stable x a l :
  filter (tied x) (JS.sort_insert cmp a l) = filter (tied x) (a :: l).
Proof.
  induction l as [|y l IH]; simpl; [done|].
  case_bool_decide as Hay; [done|].
  rewrite filter_cons, IH, !filter_cons.
  destruct (decide (tied x y)) as [Hxy|]; [|done].
  destruct (decide (tied x a)) as [Hxa|]; [|done].
  exfalso. apply Hay.
  eapply JS.cmp_trans; [apply tied_before, tied_sym, Hxa|by apply tied_before].
Qed.

Lemma sort_stable x l :
  filter (tied x) (JS.sort cmp l) = filter (tied x) l.
Proof.
  induction l as [|a l IH]; simpl; [done|].
  rewrite sort_insert_stable, !filter_cons. fold (JS.sort cmp l).
  by rewrite IH.
Qed.

Lemma tied_refl a : tied a a.
Proof.
  unfold tied. pose proof (JS.cmp_antisym a a) as Haa.
  destruct (decide (cmp a a ≤ 0)); lia.
Qed.

Lemma before_both_tied a b : before a b → before b a → tied a b.
Proof.
  unfold before, tied. intros Hab Hba. apply JS.cmp_antisym in Hba. lia.
Qed.

Lemma sorted_stable_unique l1 l2 :
  StronglySorted before l1 → StronglySorted before l2 → l1 ≡ₚ l2 →
  (∀ x, filter (tied x) l1 = filter (tied x) l2) → l1 = l2.
Proof.
  revert l2. induction l1 as [|a l1 IH]; intros l2 H1 H2 Hp Hf.
  - by apply Permutation_nil_l in Hp.
  - destruct l2 as [|b l2]; [by apply Permutation_nil_r in Hp|].
    apply StronglySorted_cons in H1 as [Ha H1].
    apply StronglySorted_cons in H2 as [Hb H2].
    assert (tied a b) as Hab.
    { assert (a ∈ b :: l2) as Hin by (rewrite <- Hp; left).
      assert (b ∈ a :: l1) as Hin' by (rewrite Hp; left).
      apply elem_of_cons in Hin as [->|Hin]; [apply tied_refl|].
      apply elem_of_cons in Hin' as [->|Hin']; [apply tied_refl|].
      apply before_both_tied.
      - eapply Forall_forall in Ha; [exact Ha|done].
      - eapply Forall_forall in Hb; [exact Hb|done]. }
    assert (a = b) as <-.
    { pose proof (Hf a) as Hfa.
      rewrite (filter_cons_True _ a l1 (tied_refl a)) in Hfa.
      rewrite (filter_cons_True _ b l2 Hab) in Hfa. congruence. }
    f_equal. apply IH; [done..|by apply Permutation_cons_inv in Hp|].
    intros x. pose proof (Hf x) as Hfx. rewrite !filter_cons in Hfx.
    destruct (decide (tied x a)); congruence.
Qed.

(** The model computes the result that ECMAScript prescribes: the
    sorted, stable arrangement of the input, which is unique. *)
Lemma sort_unique l l' :
  l' ≡ₚ l → StronglySorted before l' →
  (∀ x, filter (tied x) l' = filter (tied x) l) → l' = JS.sort cmp l.
Proof.
  intros Hp Hs Hf. apply sorted_stable_unique.
  - done.
  - apply sort_sorted.
  - by rewrite sort_perm.
  - intros x. by rewrite sort_stable.
Qed.
End sort_facts.

Lemma StronglySorted_weaken {A : Type} (R R' : relation A) (l : list A) :
  (∀ a b, R a b → R' a b) → StronglySorted R l → StronglySorted R' l.
Proof.
  intros HR. induction 1 as [|a l Hl IH Ha]; constructor; [done|].
  eapply Forall_impl; [exact Ha|]. intros b. apply HR.
Qed.

(** ** Conflict detection *)

Section calendar_facts.
Import CalendarEvent CalendarService.

(** Two events overlap as half-open intervals. *)
Definition overlaps (a b : t) : Prop := start a < end_ b ∧ start b < end_ a.

(** Two events agree on every field other than the conflicts flag. *)
Definition same_event (a b : t) : Prop :=
  id a = id b ∧ title a = title b ∧ start a = start b ∧ end_ a = end_ b ∧
  description a = description b ∧ location a = location b.

(** The index pairs that the two loops of [detectConflicts] visit, in
    the order of the visit. *)
Definition pairs (n : nat) : list (nat * nat) :=
  i ← seq 0 n; pair i <$> seq (S i) (n - S i).

Definition mark_all (ps : list (nat * nat)) (s : list t) : list t :=
  foldl (λ s p, mark_pair p.1 p.2 s) s ps.

(** The events at [i] and [j] exist and overlap. *)
Definition overlap_at (s : list t) (i j : nat) : bool :=
  match s !! i, s !! j with
  | Some a, Some b => eventsOverlap a b
  | _, _ => false
  end.

(** Index [q] belongs to an overlapping pair of [ps]. *)
Definition hit (s : list t) (ps : list (nat * nat)) (q : nat) : bool :=
  existsb (λ p, overlap_at s p.1 p.2 && (bool_decide (q = p.1) || bool_decide (q = p.2))) ps.

Definition touch (b : bool) (e : t) : t := if b then set_conflicts true e else e.

Global Instance by_start_consistent : JS.Consistent by_start.
Proof. split; unfold by_start; intros; lia. Qed.

Lemma eventsOverlap_overlaps a b : eventsOverlap a b = true ↔ overlaps a b.
Proof.
  unfold eventsOverlap, overlaps.
  rewrite andb_true_iff, !bool_decide_eq_true. done.
Qed.

Lemma eventsOverlap_sym a b : eventsOverlap a b = eventsOverlap b a.
Proof. unfold eventsOverlap. apply andb_comm. Qed.

Lemma overlap_at_sym s i j : overlap_at s i j = overlap_at s j i.
Proof.
  unfold overlap_at. destruct (s !! i), (s !! j); try done.
  apply eventsOverlap_sym.
Qed.

Lemma touch_same b e : same_event (touch b e) e.
Proof. by destruct b. Qed.

Lemma touch_touch b c e : touch c (touch b e) = touch (b || c) e.
Proof. by destruct b, c. Qed.

Lemma eventsOverlap_touch b c e e' :
  eventsOverlap (touch b e) (touch c e') = eventsOverlap e e'.
Proof. by destruct b, c. Qed.

Lemma eventsOverlap_touch_r c e e' : eventsOverlap e (touch c e') = eventsOverlap e e'.
Proof. apply (eventsOverlap_touch false). Qed.

Lemma eventsOverlap_set_l e e' :
  eventsOverlap (set_conflicts true e) e' = eventsOverlap e e'.
Proof. apply (eventsOverlap_touch true false). Qed.

Lemma mark_pair_lookup i j s q :
  mark_pair i j s !! q =
  touch (overlap_at s i j && (bool_decide (q = i) || bool_decide (q = j))) <$> s !! q.
Proof.
  unfold mark_pair, overlap_at.
  destruct (s !! i) as [a|] eqn:Hi, (s !! j) as [b|] eqn:Hj; simpl;
    try (by destruct (s !! q)).
  destruct (eventsOverlap a b); simpl; [|by destruct (s !! q)].
  rewrite !list_lookup_alter.
  repeat case_decide; repeat case_bool_decide; subst; simpl; try congruence.
  - rewrite Hi. done.
  - rewrite Hj. done.
  - rewrite Hi. done.
  - by destruct (s !! q).
Qed.

Lemma overlap_at_mark_pair i j s a b :
  overlap_at (mark_pair i j s) a b = overlap_at s a b.
Proof.
  unfold overlap_at at 1. rewrite !mark_pair_lookup. unfold overlap_at at 3.
  destruct (s !! a), (s !! b); simpl; try done.
  apply eventsOverlap_touch.
Qed.

Lemma hit_mark_pair i j s ps q : hit (mark_pair i j s) ps q = hit s ps q.
Proof.
  unfold hit. induction ps as [|p ps IH]; simpl; [done|].
  by rewrite IH, overlap_at_mark_pair.
Qed.

Lemma mark_all_lookup ps s q :
  mark_all ps s !! q = touch (hit s ps q) <$> s !! q.
Proof.
  revert s. induction ps as [|p ps IH]; intros s; simpl.
  - by destruct (s !! q).
  - unfold mark_all in *. simpl. rewrite IH, mark_pair_lookup, hit_mark_pair.
    destruct (s !! q); simpl; [|done].
    by rewrite touch_touch.
Qed.

Lemma nested_loops_pairs (f : nat → nat → list t → list t) (g : nat → list nat) ks s :
  foldl (λ s i, foldl (λ s j, f i j s) s (g i)) s ks =
  foldl (λ s p, f p.1 p.2 s) s (i ← ks; pair i <$> g i).
Proof.
  revert s. induction ks as [|i ks IH]; intros s; simpl; [done|].
  rewrite foldl_app, <- IH. f_equal.
  generalize (g i). intros js. revert s.
  induction js as [|j js IHj]; intros s; simpl; [done|]. apply IHj.
Qed.

Lemma mark_conflicts_pairs s : mark_conflicts s = mark_all (pairs (length s)) s.
Proof.
  unfold mark_conflicts, JS.for_range, mark_all, pairs.
  rewrite Nat.sub_0_r.
  apply (nested_loops_pairs mark_pair (λ i, seq (S i) (length s - S i))).
Qed.

Lemma elem_of_pairs n i j : (i, j) ∈ pairs n ↔ (i < j < n)%nat.
Proof.
  unfold pairs. rewrite list_elem_of_bind. split.
  - intros (k & Hj & Hk). apply elem_of_seq in Hk.
    apply list_elem_of_fmap in Hj as (j' & Heq & Hj'). simplify_eq.
    apply elem_of_seq in Hj'. lia.
  - intros Hij. exists i. split.
    + apply list_elem_of_fmap. exists j. split; [done|].
      apply elem_of_seq. lia.
    + apply elem_of_seq. lia.
Qed.

Lemma hit_pairs s q :
  hit s (pairs (length s)) q = true ↔ ∃ q', q' ≠ q ∧ overlap_at s q q' = true.
Proof.
  unfold hit. rewrite existsb_exists. split.
  - intros ([i j] & Hin & Hc). simpl in Hc.
    apply list_elem_of_In, elem_of_pairs in Hin.
    apply andb_true_iff in Hc as [Ho Hq].
    apply orb_true_iff in Hq as [Hq|Hq]; apply bool_decide_eq_true in Hq; subst q.
    + exists j. split; [lia|done].
    + exists i. split; [lia|]. by rewrite overlap_at_sym.
  - intros (q' & Hne & Ho).
    assert (q < length s ∧ q' < length s)%nat as [Hq Hq'].
    { unfold overlap_at in Ho.
      destruct (s !! q) eqn:E1; [|done]. destruct (s !! q') eqn:E2; [|done].
      split; by eapply lookup_lt_Some. }
    destruct (decide (q < q')%nat).
    + exists (q, q'). split.
      * apply list_elem_of_In, elem_of_pairs. lia.
      * simpl. rewrite Ho. rewrite bool_decide_eq_true_2; done.
    + exists (q', q). split.
      * apply list_elem_of_In, elem_of_pairs. lia.
      * simpl. rewrite overlap_at_sym, Ho.
        rewrite (bool_decide_eq_true_2 (q = q)) by done.
        by rewrite orb_true_r.
Qed.

(** Every position of the result holds the event of the same position
    of the sorted input, flagged iff it overlaps an event elsewhere. *)
Lemma mark_conflicts_lookup s q :
  mark_conflicts s !! q = touch (hit s (pairs (length s)) q) <$> s !! q.
Proof. rewrite mark_conflicts_pairs. apply mark_all_lookup. Qed.

Lemma mark_conflicts_same s : Forall2 same_event (mark_conflicts s) s.
Proof.
  apply Forall2_same_length_lookup_2.
  - apply Nat.le_antisymm; apply Nat.nlt_ge; intros Hlt.
    + destruct (lookup_lt_is_Some_2 (mark_conflicts s) (length s) Hlt) as [e He].
      rewrite mark_conflicts_lookup in He.
      by rewrite (lookup_ge_None_2 s (length s)) in He.
    + destruct (lookup_lt_is_Some_2 s (length (mark_conflicts s)) Hlt) as [e He].
      pose proof (lookup_ge_None_2 (mark_conflicts s) (length (mark_conflicts s))
                    (Nat.le_refl _)) as Hn.
      rewrite mark_conflicts_lookup, He in Hn. done.
  - intros q a b Ha Hb. rewrite mark_conflicts_lookup, Hb in Ha.
    simpl in Ha. simplify_eq. apply touch_same.
Qed.
End calendar_facts.

Section conflict_claims.
Import CalendarEvent CalendarService.

(** An event whose flag is not set yet. *)
Definition unflagged (e : t) : Prop := conflicts e ≠ Some true.

(** The instant [h]:[m] of the day that starts at the epoch. *)
Definition at_time (h m : Z) : Z := (h * 60 + m) * 60 * 1000.

(** A parsed event with the given id and interval. *)
Definition meeting (i : string) (s e : Z) : t := mk i "Meeting" s e None None (Some false).

Lemma parseEvent_unflagged eventData e : parseEvent eventData = Some e → unflagged e.
Proof.
  unfold parseEvent, unflagged.
  destruct (ed_start eventData), (ed_end eventData); intros; simplify_eq; done.
Qed.

(** The only lists that the service hands to [detectConflicts]
    (lines 46-50 and 74-78) hold unflagged events. *)
Lemma parsed_events_unflagged items : Forall unflagged (omap parseEvent items).
Proof.
  apply Forall_forall. intros e He.
  apply list_elem_of_omap in He as (d & _ & Hd).
  by eapply parseEvent_unflagged.
Qed.

Lemma same_event_sorted o s :
  Forall2 same_event o s →
  StronglySorted (λ a b, start a ≤ start b) s →
  StronglySorted (λ a b, start a ≤ start b) o.
Proof.
  induction 1 as [|a b o s Hab Hos IH]; intros Hs; [constructor|].
  apply StronglySorted_cons in Hs as [Hb Hs].
  apply StronglySorted_cons. split; [|by apply IH].
  clear IH Hs. destruct Hab as (_ & _ & Hst & _).
  induction Hos as [|c d o s Hcd Hos IH]; [constructor|].
  apply Forall_cons in Hb as [Hbd Hb].
  constructor; [|by apply IH].
  destruct Hcd as (_ & _ & Hst' & _). lia.
Qed.

Lemma detectConflicts_same events :
  Forall2 same_event (detectConflicts events) (JS.sort by_start events).
Proof. apply mark_conflicts_same. Qed.

Lemma detectConflicts_sorted events :
  StronglySorted (λ a b, start a ≤ start b) (detectConflicts events).
Proof.
  eapply same_event_sorted; [apply detectConflicts_same|].
  eapply StronglySorted_weaken; [|apply (sort_sorted by_start)].
  unfold before, by_start. intros; lia.
Qed.

(** The flag of an output event: set on input, or set by the loops
    because the event overlaps the event of another position. *)
Lemma detectConflicts_flag events p e :
  detectConflicts events !! p = Some e →
  conflicts e = Some true ↔
    (∃ e0, JS.sort by_start events !! p = Some e0 ∧ conflicts e0 = Some true) ∨
    (∃ q e', q ≠ p ∧ detectConflicts events !! q = Some e' ∧ overlaps e e').
Proof.
  unfold detectConflicts. set (s := JS.sort by_start events).
  rewrite mark_conflicts_lookup. intros He.
  destruct (s !! p) as [e0|] eqn:Hp; simpl in He; [|done]. simplify_eq.
  destruct (hit s (pairs (length s)) p) eqn:Hh; simpl.
  - split; [intros _|done]. right.
    apply hit_pairs in Hh as (q & Hne & Ho).
    unfold overlap_at in Ho. rewrite Hp in Ho.
    destruct (s !! q) as [e'|] eqn:Hq; [|done].
    exists q, (touch (hit s (pairs (length s)) q) e'). split; [done|]. split.
    + by rewrite mark_conflicts_lookup, Hq.
    + apply eventsOverlap_overlaps.
      by rewrite eventsOverlap_touch_r, eventsOverlap_set_l.
  - split; [intros Hc; left; eauto|].
    intros [(e1 & He1 & Hc)|(q & e' & Hne & Hq & Ho)]; [by simplify_eq|].
    exfalso. rewrite mark_conflicts_lookup in Hq.
    destruct (s !! q) as [e1|] eqn:Hq1; simpl in Hq; [|done]. simplify_eq.
    assert (hit s (pairs (length s)) p = true) as Hh'; [|congruence].
    apply hit_pairs. exists q. split; [done|].
    unfold overlap_at. rewrite Hp, Hq1.
    apply eventsOverlap_overlaps in Ho.
    by rewrite eventsOverlap_touch_r in Ho.
Qed.

(** C2: for every list of calendar events (as parsed: no flag set
    yet), [detectConflicts] returns them sorted by start time
    ascending; an event of the result is flagged iff an event at
    another position of the list overlaps it under the half-open
    predicate [start_i < end_j && start_j < end_i]; both events of an
    overlapping pair are flagged; [09:00,10:00) and [09:30,10:30) are
    both flagged, [09:00,10:00) and [10:00,11:00) are not.  Every list
    that the service parses from the API meets the condition. *)
Theorem detectConflicts_marks_overlaps (events : list t) :
  Forall unflagged events →
  let out := detectConflicts events in
  StronglySorted (λ a b, start a ≤ start b) out ∧
  (∀ p e, out !! p = Some e →
     conflicts e = Some true ↔
     ∃ q e', q ≠ p ∧ out !! q = Some e' ∧ start e < end_ e' ∧ start e' < end_ e) ∧
  (∀ p q a b, p ≠ q → out !! p = Some a → out !! q = Some b →
     start a < end_ b ∧ start b < end_ a →
     conflicts a = Some true ∧ conflicts b = Some true) ∧
  conflicts <$> detectConflicts
    [meeting "a" (at_time 9 0) (at_time 10 0); meeting "b" (at_time 9 30) (at_time 10 30)]
    = [Some true; Some true] ∧
  conflicts <$> detectConflicts
    [meeting "a" (at_time 9 0) (at_time 10 0); meeting "b" (at_time 10 0) (at_time 11 0)]
    = [Some false; Some false] ∧
  (∀ items, Forall unflagged (omap parseEvent items)).
Proof.
  intros Hun out.
  assert (∀ p e, out !! p = Some e →
     conflicts e = Some true ↔ ∃ q e', q ≠ p ∧ out !! q = Some e' ∧ overlaps e e') as Hiff.
  { intros p e He. rewrite (detectConflicts_flag events p e He).
    split; [|by right]. intros [(e0 & He0 & Hc)|Hr]; [|done].
    exfalso. assert (unflagged e0); [|done].
    assert (Forall unflagged (JS.sort by_start events)) as Hs
      by (by rewrite sort_perm).
    eapply Forall_lookup_1; [exact Hs|exact He0]. }
  split; [apply detectConflicts_sorted|]. split; [exact Hiff|].
  split; [|split; [reflexivity|split; [reflexivity|apply parsed_events_unflagged]]].
  intros p q a b Hne Ha Hb Ho. split.
  - apply (Hiff p a Ha). exists q, b. by split.
  - apply (Hiff q b Hb). exists p, a. split; [done|]. split; [done|].
    destruct Ho. by split.
Qed.

Lemma detectConflicts_marks_overlaps_witness :
  Forall unflagged [meeting "b" 5 9; meeting "a" 1 6; meeting "c" 9 12] ∧
  conflicts <$> detectConflicts [meeting "b" 5 9; meeting "a" 1 6; meeting "c" 9 12]
    = [Some true; Some true; Some false] ∧
  StronglySorted (λ a b, start a ≤ start b)
    (detectConflicts [meeting "b" 5 9; meeting "a" 1 6; meeting "c" 9 12]).
Proof.
  split; [repeat constructor; done|]. split; [reflexivity|].
  apply (detectConflicts_marks_overlaps [meeting "b" 5 9; meeting "a" 1 6; meeting "c" 9 12]).
  repeat constructor; done.
Defined.

(** C10: the result of [detectConflicts] holds exactly the input
    events, rearranged: position by position it agrees with a
    permutation of the input on id, title, start, end, description and
    location. *)
Theorem detectConflicts_frame (events : list t) :
  ∃ arranged,
    arranged ≡ₚ events ∧
    length (detectConflicts events) = length events ∧
    Forall2 (λ o i,
      id o = id i ∧ title o = title i ∧ start o = start i ∧ end_ o = end_ i ∧
      description o = description i ∧ location o = location i)
      (detectConflicts events) arranged.
Proof.
  exists (JS.sort by_start events). split; [apply sort_perm|]. split.
  - rewrite (Forall2_length _ _ _ (detectConflicts_same events)).
    apply sort_length.
  - apply detectConflicts_same.
Qed.
End conflict_claims.

(** ** Ranking *)

Section ranking_claims.
Import EmailThread GmailService.

(** The three keys that [by_rank] compares. *)
Definition rank_key (t : EmailThread.t) : Z * Z * Z :=
  (importanceWeight (importance t), urgencyScore t, lastMessageDate t).

(** [a] is not ranked after [b]: importance weight descending, then
    urgency score descending, then latest-message instant descending. *)
Definition ranks_before (a b : EmailThread.t) : Prop :=
  importanceWeight (importance b) < importanceWeight (importance a) ∨
  importanceWeight (importance b) = importanceWeight (importance a) ∧
    (urgencyScore b < urgencyScore a ∨
     urgencyScore b = urgencyScore a ∧ lastMessageDate b ≤ lastMessageDate a).

(** The map of lines 218-221. *)
Definition with_rationale (now : Z) (thread : EmailThread.t) : EmailThread.t :=
  set_rationale (generateRationale now thread) thread.

(** A thread with the given id and keys. *)
Definition thread_of (i : string) (imp : Importance) (urgency date : Z) : EmailThread.t :=
  EmailThread.mk i "Status" ["ann@example.org"] date false urgency imp false None "".

Global Instance by_rank_consistent : JS.Consistent by_rank.
Proof.
  split; unfold by_rank; intros; repeat case_bool_decide; lia.
Qed.

Lemma before_by_rank a b : before by_rank a b ↔ ranks_before a b.
Proof.
  unfold before, by_rank, ranks_before. repeat case_bool_decide; lia.
Qed.

Lemma tied_by_rank a b : tied by_rank a b ↔ rank_key a = rank_key b.
Proof.
  unfold tied, by_rank, rank_key. split.
  - repeat case_bool_decide; intros; try lia. f_equal; [f_equal|]; lia.
  - intros [=]. repeat case_bool_decide; lia.
Qed.

Lemma rank_key_with_rationale now t : rank_key (with_rationale now t) = rank_key t.
Proof. done. Qed.

Lemma rankThreads_unfold now threads :
  rankThreads now threads = JS.sort by_rank (with_rationale now <$> threads).
Proof. done. Qed.

(** The ranking of a list whose threads are told apart by the three
    keys does not depend on the order of the list. *)
Lemma rankThreads_perm now threads threads' :
  threads' ≡ₚ threads →
  (∀ a b, a ∈ threads → b ∈ threads → rank_key a = rank_key b → a = b) →
  rankThreads now threads' = rankThreads now threads.
Proof.
  intros Hp Hkeys. rewrite !rankThreads_unfold.
  apply (StronglySorted_unique_strong (before by_rank)).
  - intros x1 x2 H1 H2 H12 H21.
    rewrite sort_perm in H1. rewrite sort_perm in H2.
    apply list_elem_of_fmap in H1 as (a & -> & Ha).
    apply list_elem_of_fmap in H2 as (b & -> & Hb).
    rewrite Hp in Ha. f_equal. apply Hkeys; [done..|].
    rewrite <- (rank_key_with_rationale now a), <- (rank_key_with_rationale now b).
    apply tied_by_rank. unfold tied, before in *.
    apply JS.cmp_antisym in H21. lia.
  - apply sort_sorted, _.
  - apply sort_sorted, _.
  - by rewrite !sort_perm, Hp.
Qed.

(** C1 (as the code has it): [rankThreads] attaches the rationale to
    every thread and orders the threads by three keys, in priority
    order importance weight descending (high=3, medium=2, low=1),
    urgency score descending, latest-message instant descending;
    threads that tie on the three keys keep their input order (there
    is no key on the id); hence two permutations of the same threads
    are ranked identically when no two distinct threads tie on the
    three keys. *)
Theorem rankThreads_three_keys (now : Z) (threads : list EmailThread.t) :
  let out := rankThreads now threads in
  importanceWeight high = 3 ∧ importanceWeight medium = 2 ∧ importanceWeight low = 1 ∧
  out ≡ₚ with_rationale now <$> threads ∧
  StronglySorted ranks_before out ∧
  (∀ x, filter (λ t, rank_key x = rank_key t) out =
        filter (λ t, rank_key x = rank_key t) (with_rationale now <$> threads)) ∧
  (∀ threads', threads' ≡ₚ threads →
     (∀ a b, a ∈ threads → b ∈ threads → rank_key a = rank_key b → a = b) →
     rankThreads now threads' = out).
Proof.
  intros out. do 3 (split; [done|]). split; [apply sort_perm|]. split.
  - eapply StronglySorted_weaken; [|apply (sort_sorted by_rank)].
    intros a b. apply before_by_rank.
  - split; [|intros threads'; apply rankThreads_perm].
    intros x. unfold out. rewrite rankThreads_unfold.
    pose proof (sort_stable by_rank x (with_rationale now <$> threads)) as Hst.
    etransitivity; [|etransitivity; [exact Hst|]];
      apply list_filter_iff; intros t; by rewrite tied_by_rank.
Qed.

Lemma rankThreads_three_keys_witness :
  [thread_of "y" low 1 50; thread_of "x" high 8 20] ≡ₚ
    [thread_of "x" high 8 20; thread_of "y" low 1 50] ∧
  rankThreads 100 [thread_of "y" low 1 50; thread_of "x" high 8 20] =
    rankThreads 100 [thread_of "x" high 8 20; thread_of "y" low 1 50].
Proof.
  split; [apply Permutation_swap|].
  apply (rankThreads_three_keys 100 [thread_of "x" high 8 20; thread_of "y" low 1 50]).
  - apply Permutation_swap.
  - intros a b Ha Hb.
    apply list_elem_of_In in Ha. apply list_elem_of_In in Hb. simpl in Ha, Hb.
    destruct Ha as [<-|[<-|[]]], Hb as [<-|[<-|[]]]; done.
Defined.

(** C1 fails as stated: two threads that agree on importance, urgency
    and instant are ranked in their input order, whatever their ids,
    so two permutations of one input are ranked differently and the
    ids need not ascend. *)
Lemma rankThreads_no_id_key :
  [thread_of "a" medium 5 1000; thread_of "b" medium 5 1000] ≡ₚ
    [thread_of "b" medium 5 1000; thread_of "a" medium 5 1000] ∧
  EmailThread.id <$> rankThreads 2000 [thread_of "a" medium 5 1000; thread_of "b" medium 5 1000]
    = ["a"; "b"] ∧
  EmailThread.id <$> rankThreads 2000 [thread_of "b" medium 5 1000; thread_of "a" medium 5 1000]
    = ["b"; "a"] ∧
  String.ltb "a" "b" = true ∧
  rankThreads 2000 [thread_of "a" medium 5 1000; thread_of "b" medium 5 1000] ≠
    rankThreads 2000 [thread_of "b" medium 5 1000; thread_of "a" medium 5 1000].
Proof.
  split; [apply Permutation_swap|]. do 3 (split; [reflexivity|]).
  intros Heq. apply (f_equal (fmap EmailThread.id)) in Heq. vm_compute in Heq. done.
Qed.
End ranking_claims.

(** ** Strings *)

Section string_facts.
Lemma startsWith_prefix p s : JS.startsWith p s = true ↔ ∃ post, s = p +:+ post.
Proof.
  revert s. induction p as [|a p IH]; intros s; simpl.
  - split; [intros _; by exists s|done].
  - destruct s as [|b s]; [split; [done|intros [post [=]]]|].
    rewrite andb_true_iff, bool_decide_eq_true, IH. split.
    + intros [-> [post ->]]. by exists post.
    + intros [post [= -> ->]]. split; [done|by exists post].
Qed.

(** [s.includes(p)] holds exactly when [p] occurs inside [s]. *)
Lemma includes_occurs s p : JS.includes s p = true ↔ ∃ pre post, s = pre +:+ p +:+ post.
Proof.
  induction s as [|c s IH]; simpl.
  - rewrite orb_false_r, startsWith_prefix. split.
    + intros [post ->]. by exists "", post.
    + intros ([|a pre] & post & Heq); [by exists post|done].
  - rewrite orb_true_iff, startsWith_prefix, IH. split.
    + intros [[post ->]|(pre & post & ->)].
      * by exists "", post.
      * by exists (String c pre), post.
    + intros ([|a pre] & post & Heq).
      * left. by exists post.
      * right. simpl in Heq. injection Heq as -> ->. by exists pre, post.
Qed.

(** [c] occurs in [s]. *)
Fixpoint has_char (c : ascii) (s : string) : bool :=
  match s with
  | EmptyString => false
  | String a s' => bool_decide (a = c) || has_char c s'
  end.

Lemma split_no_sep sep s : has_char sep s = false → JS.split sep s = [s].
Proof.
  induction s as [|c s IH]; simpl; [done|].
  intros [Hc Hs]%orb_false_iff. rewrite Hc, (IH Hs). done.
Qed.

Lemma split_at_sep sep l r :
  has_char sep l = false → JS.split sep (l +:+ String sep r) = l :: JS.split sep r.
Proof.
  induction l as [|c l IH]; simpl.
  - intros _. by rewrite bool_decide_eq_true_2.
  - intros [Hc Hl]%orb_false_iff. rewrite Hc, (IH Hl). done.
Qed.
End string_facts.

(** ** Addresses *)

Section address_facts.
Import Raw GmailService.

Lemma has_char_app c s1 s2 : has_char c (s1 +:+ s2) = has_char c s1 || has_char c s2.
Proof.
  induction s1 as [|a s1 IH]; [done|].
  change (has_char c (String a (s1 +:+ s2))
          = (bool_decide (a = c) || has_char c s1) || has_char c s2).
  simpl. by rewrite IH, orb_assoc.
Qed.

Lemma until_gt_found addr rest :
  has_char ">" addr = false → until_gt (addr +:+ String ">" rest) = Some addr.
Proof.
  induction addr as [|c addr IH]; simpl; [done|].
  intros [Hc Ha]%orb_false_iff. rewrite Hc, (IH Ha). done.
Qed.

Lemma match_angle_found name address rest :
  has_char "<" name = false → address ≠ "" → has_char ">" address = false →
  match_angle (name +:+ String "<" (address +:+ String ">" rest)) = Some address.
Proof.
  intros Hn Ha Hg. induction name as [|c name IH]; simpl in *.
  - rewrite (until_gt_found address rest Hg). by destruct address.
  - apply orb_false_iff in Hn as [Hc Hn]. rewrite Hc. by apply IH.
Qed.

Lemma match_angle_none s : has_char "<" s = false → match_angle s = None.
Proof.
  induction s as [|c s IH]; simpl; [done|].
  intros [Hc Hs]%orb_false_iff. rewrite Hc. by apply IH.
Qed.

Lemma runs_no_delim s :
  (∀ c, is_delim c = true → has_char c s = false) → runs s = [s].
Proof.
  induction s as [|c s IH]; simpl; [done|]. intros Hd.
  destruct (is_delim c) eqn:Hc.
  - specialize (Hd c Hc). simpl in Hd. by rewrite bool_decide_eq_true_2 in Hd.
  - rewrite IH; [done|]. intros d Hdd. specialize (Hd d Hdd). simpl in Hd.
    by apply orb_false_iff in Hd as [_ ?].
Qed.

(** The address between the first pair of angle brackets. *)
Lemma extractEmailAddress_angle name address rest :
  has_char "<" name = false → address ≠ "" → has_char ">" address = false →
  extractEmailAddress (name +:+ "<" +:+ address +:+ ">" +:+ rest) = address.
Proof.
  intros Hn Ha Hg. unfold extractEmailAddress.
  change (name +:+ "<" +:+ address +:+ ">" +:+ rest)
    with (name +:+ String "<" (address +:+ String ">" rest)).
  by rewrite match_angle_found.
Qed.

(** A text without white space and angle brackets. *)
Lemma extractEmailAddress_bare bare :
  (∀ c, is_delim c = true → has_char c bare = false) → extractEmailAddress bare = bare.
Proof.
  intros Hd. unfold extractEmailAddress, match_bare.
  rewrite match_angle_none by (by apply Hd).
  rewrite (runs_no_delim bare Hd). simpl. by destruct (has_inner_at bare).
Qed.
End address_facts.

(** ** Urgency and importance *)

Section scoring_claims.
Import Raw GmailService.

(** The message carries the provider label. *)
Definition labelled (label : string) (m : Message) : Prop :=
  ∃ ls, labelIds m = Some ls ∧ label ∈ ls.

(** The lower-cased subject contains one of the six urgency words. *)
Definition mentions_urgency (subject : string) : Prop :=
  ∃ keyword pre post,
    keyword ∈ ["urgent"; "asap"; "immediate"; "deadline"; "emergency"; "critical"] ∧
    JS.toLowerCase subject = pre +:+ keyword +:+ post.

(** [h] is the first header named exactly [n] of the first message of
    the thread. *)
Definition first_header (n : string) (threadData : ThreadData) (h : Header) : Prop :=
  ∃ first rest p pre post,
    messages threadData = Some (first :: rest) ∧ payload first = Some p ∧
    headers p = Some (pre ++ h :: post) ∧
    name h = n ∧ Forall (λ h', name h' ≠ n) pre.

(** The first message of the thread has no header named exactly [n]:
    it has no payload, or no header list, or no such header in it. *)
Definition no_header (n : string) (threadData : ThreadData) : Prop :=
  ∀ first rest p hs,
    messages threadData = Some (first :: rest) → payload first = Some p →
    headers p = Some hs → Forall (λ h', name h' ≠ n) hs.

(** The [From] header of the first message names a sender
    [local@domain], between angle brackets after a display name or
    alone. *)
Definition sender_is (threadData : ThreadData) (local domain : string) : Prop :=
  ∃ h, first_header "From" threadData h ∧
    has_char "@" local = false ∧ has_char "@" domain = false ∧
    ((∃ display rest,
        value h = display +:+ "<" +:+ (local +:+ "@" +:+ domain) +:+ ">" +:+ rest ∧
        has_char "<" display = false ∧
        has_char ">" local = false ∧ has_char ">" domain = false) ∨
     (value h = local +:+ "@" +:+ domain ∧
      ∀ c, is_delim c = true → has_char c (value h) = false)).

(** The two clock readings give a message of date [d] the same
    recency signal: they lie on the same side of the three bounds. *)
Definition same_recency (now now' d : Z) : Prop :=
  (now - d < 2 * 3600000 ↔ now' - d < 2 * 3600000) ∧
  (now - d < 24 * 3600000 ↔ now' - d < 24 * 3600000) ∧
  (now - d < 72 * 3600000 ↔ now' - d < 72 * 3600000).

(** The score in the words of section 4.1 of the specification, which
    takes the four signals from the latest message: its send time, its
    unread and important labels and its subject text. *)
Definition spec_urgency_score (age : Z) (unread important : bool) (subject : string) : Z :=
  let recency :=
    if bool_decide (age < 2 * 3600000) then 3
    else if bool_decide (age < 24 * 3600000) then 2
    else if bool_decide (age < 72 * 3600000) then 1 else 0 in
  let keyword :=
    if existsb (JS.includes (JS.toLowerCase subject))
         ["urgent"; "asap"; "immediate"; "deadline"; "emergency"; "critical"]
    then 3 else 0 in
  Z.min (recency + (if unread then 2 else 0) + (if important then 2 else 0) + keyword) 10.

(** A raw thread of one message. *)
Definition single (i : string) (date : Z) (labels : option (list string))
    (hs : list Header) : ThreadData :=
  mkThread i (Some [mkMessage date labels (Some (mkPayload (Some hs))) None]).

(** A message of the given date and headers, without labels. *)
Definition message_of (date : Z) (hs : list Header) : Message :=
  mkMessage date None (Some (mkPayload (Some hs))) None.

Lemma has_label_labelled label m : has_label label m = true ↔ labelled label m.
Proof.
  unfold has_label, labelled. destruct (labelIds m) as [ls|].
  - rewrite bool_decide_eq_true. split; [eauto|]. by intros (? & [= <-] & ?).
  - split; [done|]. by intros (? & ? & ?).
Qed.

Lemma label_points_spec label m :
  labelled label m ∧ label_points label m = 2 ∨
  ¬ labelled label m ∧ label_points label m = 0.
Proof.
  unfold label_points. destruct (has_label label m) eqn:H.
  - left. split; [by apply has_label_labelled|done].
  - right. split; [|done]. intros Hl%has_label_labelled. congruence.
Qed.

Lemma recency_points_spec age :
  age < 2 * 3600000 ∧ recency_points age = 3 ∨
  2 * 3600000 ≤ age < 24 * 3600000 ∧ recency_points age = 2 ∨
  24 * 3600000 ≤ age < 72 * 3600000 ∧ recency_points age = 1 ∨
  72 * 3600000 ≤ age ∧ recency_points age = 0.
Proof.
  unfold recency_points, hoursAgo_lt, hour. repeat case_bool_decide; lia.
Qed.

Lemma recency_points_same now now' d :
  same_recency now now' d → recency_points (now' - d) = recency_points (now - d).
Proof.
  intros (H2 & H24 & H72). unfold recency_points, hoursAgo_lt, hour.
  repeat case_bool_decide; lia.
Qed.

Lemma keyword_points_mentions subject :
  mentions_urgency subject ∧ keyword_points (JS.toLowerCase subject) = 3 ∨
  ¬ mentions_urgency subject ∧ keyword_points (JS.toLowerCase subject) = 0.
Proof.
  unfold keyword_points, mentions_urgency.
  set (lowered := JS.toLowerCase subject).
  destruct (existsb _ urgentKeywords) eqn:H.
  - left. split; [|done].
    apply existsb_exists in H as (keyword & Hin & Hinc).
    apply includes_occurs in Hinc as (pre & post & Heq).
    exists keyword, pre, post. split; [by apply list_elem_of_In|done].
  - right. split; [|done]. intros (keyword & pre & post & Hin & Heq).
    assert (existsb (λ keyword, JS.includes lowered keyword) urgentKeywords = true)
      as Ht; [|congruence].
    apply existsb_exists. exists keyword. split; [by apply list_elem_of_In|].
    apply includes_occurs. eauto.
Qed.

(** What [headers.find(h => h.name === n)?.value || ''] returns. *)
Lemma find_first_named n (pre post : list Header) h :
  name h = n → Forall (λ h', name h' ≠ n) pre →
  List.find (λ h, bool_decide (name h = n)) (pre ++ h :: post) = Some h.
Proof.
  intros Hn Hpre. induction Hpre as [|h' pre Hh' _ IH]; simpl.
  - by rewrite bool_decide_eq_true_2.
  - by rewrite bool_decide_eq_false_2.
Qed.

Lemma find_none_named n (hs : list Header) :
  Forall (λ h', name h' ≠ n) hs → List.find (λ h, bool_decide (name h = n)) hs = None.
Proof.
  induction 1 as [|h' hs Hh' _ IH]; simpl; [done|]. by rewrite bool_decide_eq_false_2.
Qed.

Lemma or_default_empty v : JS.or_default (Some v) "" = v.
Proof. unfold JS.or_default, JS.truthy. by case_bool_decide. Qed.

Lemma header_exact_first n threadData h :
  first_header n threadData h →
  header_exact n (headers_of (head (default [] (messages threadData)))) = value h ∧
  header_exact n (headers_of (messages threadData ≫= head)) = value h.
Proof.
  intros (first & rest & p & pre & post & Hm & Hp & Hh & Hn & Hpre).
  rewrite Hm.
  assert (headers_of (Some first) = Some (pre ++ h :: post)) as Hhs
    by (unfold headers_of; simpl; rewrite Hp; simpl; exact Hh).
  assert (header_exact n (Some (pre ++ h :: post)) = value h) as Hv.
  { unfold header_exact.
    change (Some (pre ++ h :: post) ≫= List.find (λ h0, bool_decide (name h0 = n)))
      with (List.find (λ h0, bool_decide (name h0 = n)) (pre ++ h :: post)).
    rewrite (find_first_named n pre post h Hn Hpre).
    change (value <$> Some h) with (Some (value h)). apply or_default_empty. }
  change (head (default [] (Some (first :: rest)))) with (Some first).
  change (Some (first :: rest) ≫= head) with (Some first).
  by rewrite Hhs.
Qed.

Lemma header_exact_none n threadData :
  no_header n threadData →
  header_exact n (headers_of (head (default [] (messages threadData)))) = "" ∧
  header_exact n (headers_of (messages threadData ≫= head)) = "".
Proof.
  intros Hno. unfold header_exact, headers_of.
  destruct (messages threadData) as [[|first rest]|] eqn:Hm; [done| |done]. simpl.
  destruct (payload first) as [p|] eqn:Hp; [|done]. simpl.
  destruct (headers p) as [hs|] eqn:Hh; [|done]. simpl.
  by rewrite (find_none_named n hs (Hno first rest p hs Hm Hp Hh)).
Qed.

(** A thread with a message has a first header of a name, or none. *)
Lemma first_header_or_none n threadData :
  (∃ h, first_header n threadData h) ∨ no_header n threadData.
Proof.
  destruct (messages threadData) as [[|first rest]|] eqn:Hm;
    [right; intros ? ? ? ? ?; congruence| |right; intros ? ? ? ? ?; congruence].
  destruct (payload first) as [p|] eqn:Hp;
    [|right; intros ? ? ? ? ? ?; congruence].
  destruct (headers p) as [hs|] eqn:Hh;
    [|right; intros ? ? ? ? ? ? ?; congruence].
  assert ((∃ pre h post, hs = pre ++ h :: post ∧ name h = n ∧ Forall (λ h', name h' ≠ n) pre)
          ∨ Forall (λ h', name h' ≠ n) hs) as [(pre & h & post & -> & Hn & Hpre)|Hall].
  { clear Hh. induction hs as [|h hs IH]; [right; constructor|].
    destruct (decide (name h = n)) as [Hn|Hn].
    - left. exists [], h, hs. by repeat split.
    - destruct IH as [(pre & h0 & post & -> & Hn0 & Hpre)|Hall].
      + left. exists (h :: pre), h0, post. repeat split; [done|by constructor].
      + right. by constructor. }
  - left. exists h, first, rest, p, pre, post. by repeat split.
  - right. intros first' rest' p' hs' Hm' Hp' Hh'. congruence.
Qed.

(** The thread that [parseThread] builds carries the score of line 116
    and the tier of line 117. *)
Lemma parseThread_scores threadData now now' t :
  parseThread threadData now now' = Some t →
  calculateUrgencyScore threadData now = Some (EmailThread.urgencyScore t) ∧
  calculateImportance threadData now' = Some (EmailThread.importance t).
Proof.
  unfold parseThread.
  destruct (last (default [] (messages threadData))) as [latest|]; [|done]. simpl.
  destruct (calculateUrgencyScore threadData now) as [u|]; [|done]. simpl.
  destruct (calculateImportance threadData now') as [i|]; [|done]. simpl.
  destruct (determineActionRequired threadData) as [a|]; [|done]. simpl.
  by intros [= <-].
Qed.

(** With a latest message the score is computed: no exception. *)
Lemma urgency_points_total threadData now latest :
  last (default [] (messages threadData)) = Some latest →
  calculateUrgencyScore threadData now
  = Some (Z.min (recency_points (now - internalDate latest)
                 + label_points "UNREAD" latest + label_points "IMPORTANT" latest
                 + keyword_points (scored_subject (default [] (messages threadData)))) 10).
Proof. intros Hlast. unfold calculateUrgencyScore. rewrite Hlast. simpl. do 2 f_equal. Qed.

(** C3 (as the code has it): for every raw thread with a message, the
    urgency score is [min(sum, 10)] of four independent signals:
    recency of the latest message (<2h: 3, <24h: 2, <72h: 1, else 0),
    2 for the unread label and 2 for the important label of the latest
    message, and 3 for an urgency word in the lower-cased value of the
    first header named exactly [Subject] of the first message of the
    thread; a missing label list, payload, header list or [Subject]
    header adds 0; the score lies in 0..10. *)
Theorem urgency_score_capped_sum (threadData : ThreadData) (now : Z) (latest : Message) :
  last (default [] (messages threadData)) = Some latest →
  ∃ recency unread important keyword,
    calculateUrgencyScore threadData now
      = Some (Z.min (recency + unread + important + keyword) 10) ∧
    0 ≤ Z.min (recency + unread + important + keyword) 10 ≤ 10 ∧
    (let age := now - internalDate latest in
     age < 2 * 3600000 ∧ recency = 3 ∨
     2 * 3600000 ≤ age < 24 * 3600000 ∧ recency = 2 ∨
     24 * 3600000 ≤ age < 72 * 3600000 ∧ recency = 1 ∨
     72 * 3600000 ≤ age ∧ recency = 0) ∧
    (labelled "UNREAD" latest ∧ unread = 2 ∨ ¬ labelled "UNREAD" latest ∧ unread = 0) ∧
    (labelled "IMPORTANT" latest ∧ important = 2 ∨
     ¬ labelled "IMPORTANT" latest ∧ important = 0) ∧
    (∀ h, first_header "Subject" threadData h →
       mentions_urgency (value h) ∧ keyword = 3 ∨
       ¬ mentions_urgency (value h) ∧ keyword = 0) ∧
    (no_header "Subject" threadData → keyword = 0) ∧
    ((∃ h, first_header "Subject" threadData h) ∨ no_header "Subject" threadData) ∧
    (labelIds latest = None → unread = 0 ∧ important = 0) ∧
    (∀ now' t, parseThread threadData now now' = Some t →
       EmailThread.urgencyScore t = Z.min (recency + unread + important + keyword) 10).
Proof.
  intros Hlast. set (msgs := default [] (messages threadData)) in *.
  exists (recency_points (now - internalDate latest)),
    (label_points "UNREAD" latest), (label_points "IMPORTANT" latest),
    (keyword_points (scored_subject msgs)).
  pose proof (recency_points_spec (now - internalDate latest)) as Hr.
  pose proof (label_points_spec "UNREAD" latest) as Hu.
  pose proof (label_points_spec "IMPORTANT" latest) as Hi.
  pose proof (urgency_points_total threadData now latest Hlast) as Hscore. fold msgs in Hscore.
  assert (0 ≤ keyword_points (scored_subject msgs) ≤ 3) as Hk
    by (unfold keyword_points; destruct (existsb _ _); lia).
  split; [exact Hscore|].
  split; [lia|]. split; [exact Hr|]. split; [exact Hu|]. split; [exact Hi|].
  split; [|split; [|split; [|split]]].
  - intros h [Hh _]%header_exact_first. unfold scored_subject. fold msgs in Hh.
    rewrite Hh. apply keyword_points_mentions.
  - intros [Hno _]%header_exact_none. unfold scored_subject. fold msgs in Hno.
    by rewrite Hno.
  - apply first_header_or_none.
  - intros Hnone. unfold label_points, has_label. by rewrite Hnone.
  - intros now' t [Hsc _]%parseThread_scores. congruence.
Qed.

Lemma urgency_score_capped_sum_witness :
  last (default [] (messages
    (single "t1" 1000 (Some ["UNREAD"; "IMPORTANT"]) [mkHeader "Subject" "URGENT: deadline"])))
    = Some (mkMessage 1000 (Some ["UNREAD"; "IMPORTANT"])
              (Some (mkPayload (Some [mkHeader "Subject" "URGENT: deadline"]))) None) ∧
  ∃ recency unread important keyword,
    calculateUrgencyScore
      (single "t1" 1000 (Some ["UNREAD"; "IMPORTANT"]) [mkHeader "Subject" "URGENT: deadline"])
      (1000 + 3600000)
      = Some (Z.min (recency + unread + important + keyword) 10) ∧
    0 ≤ Z.min (recency + unread + important + keyword) 10 ≤ 10 ∧
    (mentions_urgency "URGENT: deadline" ∧ keyword = 3 ∨
     ¬ mentions_urgency "URGENT: deadline" ∧ keyword = 0).
Proof.
  split; [reflexivity|].
  destruct (urgency_score_capped_sum
    (single "t1" 1000 (Some ["UNREAD"; "IMPORTANT"]) [mkHeader "Subject" "URGENT: deadline"])
    (1000 + 3600000)
    (mkMessage 1000 (Some ["UNREAD"; "IMPORTANT"])
       (Some (mkPayload (Some [mkHeader "Subject" "URGENT: deadline"]))) None)
    eq_refl) as (r & u & i & k & Hs & Hb & _ & _ & _ & Hk & _).
  exists r, u, i, k. split; [exact Hs|]. split; [exact Hb|].
  apply (Hk (mkHeader "Subject" "URGENT: deadline")).
  eexists _, [], _, [], []. by repeat split.
Defined.

(** The scenario of the specification: one hour old, unread,
    important, subject "URGENT: deadline". *)
Example urgency_score_scenario :
  calculateUrgencyScore
    (single "t1" 1000 (Some ["UNREAD"; "IMPORTANT"]) [mkHeader "Subject" "URGENT: deadline"])
    (1000 + 3600000) = Some 10.
Proof. reflexivity. Qed.

(** A conversation that began as "Lunch on Friday" and whose latest
    message is "URGENT: server down"; and a thread whose only message
    names its subject header in lower case. *)
Definition escalated_thread : ThreadData :=
  mkThread "t4" (Some [message_of 0 [mkHeader "Subject" "Lunch on Friday"];
                       message_of 1000 [mkHeader "Subject" "URGENT: server down"]]).

Definition lower_case_header_thread : ThreadData :=
  mkThread "t5" (Some [message_of 1000 [mkHeader "subject" "URGENT: server down"]]).

(** C3 fails as stated: the subject of the thread, which is that of
    its latest message, contains "urgent", and the score of the thread
    is 0 where the four signals of the specification add up to 3: the
    score reads the subject of the first message, and only from a
    header named exactly [Subject]. *)
Lemma urgency_reads_first_subject :
  ∃ t t',
    parseThread escalated_thread (100 * 3600000) (100 * 3600000) = Some t ∧
    EmailThread.subject t = "URGENT: server down" ∧
    EmailThread.urgencyScore t = 0 ∧
    spec_urgency_score (100 * 3600000 - EmailThread.lastMessageDate t)
      (EmailThread.isUnread t) false (EmailThread.subject t) = 3 ∧
    parseThread lower_case_header_thread (100 * 3600000) (100 * 3600000) = Some t' ∧
    EmailThread.subject t' = "URGENT: server down" ∧
    EmailThread.urgencyScore t' = 0 ∧
    spec_urgency_score (100 * 3600000 - EmailThread.lastMessageDate t')
      (EmailThread.isUnread t') false (EmailThread.subject t') = 3 ∧
    EmailThread.urgencyScore t
    ≠ spec_urgency_score (100 * 3600000 - EmailThread.lastMessageDate t)
        (EmailThread.isUnread t) false (EmailThread.subject t).
Proof.
  eexists _, _. split; [vm_compute; reflexivity|].
  repeat split; try (vm_compute; reflexivity). vm_compute. discriminate.
Qed.

Lemma classify_spec urgency vip :
  (classify urgency vip = high ↔ 7 ≤ urgency ∨ vip = true) ∧
  (classify urgency vip = medium ↔ ¬ (7 ≤ urgency ∨ vip = true) ∧ 4 ≤ urgency) ∧
  (classify urgency vip = low ↔ urgency < 4 ∧ vip = false).
Proof.
  unfold classify. destruct vip; repeat case_bool_decide; simpl;
    repeat split; intros; try done; try lia; try (destruct_and?; lia);
    try (destruct_or?; done || lia).
  all: try (intros [? ?]; done || lia).
Qed.

(** The VIP test on an address [local@domain]: the domain, lower-cased,
    is one of the two allowed domains. *)
Lemma isVIPSender_domain local domain :
  has_char "@" local = false → has_char "@" domain = false →
  isVIPSender (local +:+ "@" +:+ domain) = true ↔
  JS.toLowerCase domain = "company.com" ∨ JS.toLowerCase domain = "client.com".
Proof.
  intros Hl Hd. unfold isVIPSender.
  change ("@" +:+ domain) with (String "@" domain).
  rewrite (split_at_sep "@" local domain Hl), (split_no_sep "@" domain Hd). simpl.
  rewrite bool_decide_eq_true. unfold vipDomains.
  rewrite !elem_of_cons, elem_of_nil. tauto.
Qed.

(** The address that [getFromEmail] returns for a well-formed [From]
    header of the first message. *)
Lemma getFromEmail_sender threadData local domain :
  sender_is threadData local domain → getFromEmail threadData = local +:+ "@" +:+ domain.
Proof.
  intros (h & [_ Hh]%header_exact_first & Hl & Hd & Hform). unfold getFromEmail. rewrite Hh.
  destruct Hform as [(display & rest & -> & Hdisplay & Hgl & Hgd)|[Hv Hbare]].
  - apply extractEmailAddress_angle; [done|by destruct local|].
    change ("@" +:+ domain) with (String "@" domain).
    rewrite has_char_app. simpl. by rewrite Hgl, Hgd.
  - rewrite <- Hv. by apply extractEmailAddress_bare.
Qed.

Lemma getFromEmail_none threadData :
  no_header "From" threadData → getFromEmail threadData = "".
Proof. intros [_ Hno]%header_exact_none. unfold getFromEmail. by rewrite Hno. Qed.

(** C4 (as the code has it): for every raw thread with a message, the
    tier that [calculateImportance] returns is a function of the
    urgency score it computes, at its own reading of the clock, and of
    the sender: high iff that score >= 7 or the sender is VIP, otherwise
    medium iff that score >= 4, otherwise low; low only below 4 and not
    VIP; a VIP sender is high whatever the urgency.  The sender is the
    address of the first header named exactly [From] of the first
    message, and is VIP when its domain, lower-cased, is one of the two
    allowed domains.  The thread that [parseThread] builds carries this
    tier; the score it carries is computed at an earlier reading and is
    the same score when both readings give the latest message the same
    recency signal. *)
Theorem importance_from_urgency_and_vip (threadData : ThreadData) (now now' : Z)
    (latest : Message) :
  last (default [] (messages threadData)) = Some latest →
  ∃ urgency urgency' tier vip,
    calculateUrgencyScore threadData now = Some urgency ∧
    calculateUrgencyScore threadData now' = Some urgency' ∧
    calculateImportance threadData now' = Some tier ∧
    (tier = high ↔ 7 ≤ urgency' ∨ vip = true) ∧
    (tier = medium ↔ ¬ (7 ≤ urgency' ∨ vip = true) ∧ 4 ≤ urgency') ∧
    (tier = low ↔ urgency' < 4 ∧ vip = false) ∧
    (vip = true → tier = high) ∧
    (∀ local domain, sender_is threadData local domain →
       vip = true ↔
       JS.toLowerCase domain = "company.com" ∨ JS.toLowerCase domain = "client.com") ∧
    (no_header "From" threadData → vip = false) ∧
    (same_recency now now' (internalDate latest) → urgency' = urgency) ∧
    (∀ t, parseThread threadData now now' = Some t →
       EmailThread.urgencyScore t = urgency ∧ EmailThread.importance t = tier).
Proof.
  intros Hlast.
  pose proof (urgency_points_total threadData now latest Hlast) as Hu.
  pose proof (urgency_points_total threadData now' latest Hlast) as Hu'.
  eexists _, _, (classify _ (isVIPSender (getFromEmail threadData))),
    (isVIPSender (getFromEmail threadData)).
  split; [exact Hu|]. split; [exact Hu'|]. split.
  { unfold calculateImportance. rewrite Hu'. done. }
  match goal with |- context [classify ?u ?v] =>
    destruct (classify_spec u v) as (Hh & Hm & Hl) end.
  split; [exact Hh|]. split; [exact Hm|]. split; [exact Hl|]. split.
  { intros Hv. apply Hh. by right. }
  split.
  { intros local domain Hs. rewrite (getFromEmail_sender _ _ _ Hs).
    destruct Hs as (_ & _ & Hlo & Hdo & _). by apply isVIPSender_domain. }
  split; [intros Hno; by rewrite (getFromEmail_none _ Hno)|].
  split; [intros Hsame; by rewrite (recency_points_same _ _ _ Hsame)|].
  intros t [Hut Hit]%parseThread_scores. unfold calculateImportance in Hit.
  rewrite Hu in Hut. rewrite Hu' in Hit. simpl in Hit. split; congruence.
Qed.

(** A thread of one message from Dana at client.com, old and without
    labels. *)
Definition dana_thread : ThreadData :=
  single "t2" 0 None [mkHeader "Subject" "Hello"; mkHeader "From" "Dana <dana@Client.com>"].

Lemma importance_from_urgency_and_vip_witness :
  last (default [] (messages dana_thread))
    = Some (message_of 0 [mkHeader "Subject" "Hello";
                          mkHeader "From" "Dana <dana@Client.com>"]) ∧
  sender_is dana_thread "dana" "Client.com" ∧
  calculateUrgencyScore dana_thread (100 * 3600000) = Some 0 ∧
  calculateImportance dana_thread (100 * 3600000 + 1) = Some high.
Proof.
  assert (sender_is dana_thread "dana" "Client.com") as Hsender.
  { exists (mkHeader "From" "Dana <dana@Client.com>"). split.
    - exists (message_of 0 [mkHeader "Subject" "Hello";
                            mkHeader "From" "Dana <dana@Client.com>"]), [],
        (mkPayload (Some [mkHeader "Subject" "Hello";
                          mkHeader "From" "Dana <dana@Client.com>"])),
        [mkHeader "Subject" "Hello"], [].
      split; [reflexivity|]. split; [reflexivity|]. split; [reflexivity|].
      split; [reflexivity|]. by repeat constructor.
    - split; [reflexivity|]. split; [reflexivity|]. left. exists "Dana ", "".
      split; [reflexivity|]. split; [reflexivity|]. split; reflexivity. }
  split; [reflexivity|]. split; [exact Hsender|]. split; [reflexivity|].
  destruct (importance_from_urgency_and_vip dana_thread (100 * 3600000) (100 * 3600000 + 1)
    (message_of 0 [mkHeader "Subject" "Hello"; mkHeader "From" "Dana <dana@Client.com>"])
    eq_refl) as (urgency & urgency' & tier & vip & _ & _ & Hi & _ & _ & _ & Hv & Hs & _).
  rewrite Hi. f_equal. apply Hv. apply (Hs "dana" "Client.com" Hsender). by right.
Defined.

(** An unread, important thread from a sender who is not VIP, whose
    latest message is two hours old to the millisecond. *)
Definition two_hours_old_thread : ThreadData :=
  single "t3" 0 (Some ["UNREAD"; "IMPORTANT"])
    [mkHeader "Subject" "Minutes"; mkHeader "From" "Ann <ann@example.org>"].

(** An old question of Ann, answered by a sender of company.com. *)
Definition vip_reply_thread : ThreadData :=
  mkThread "t6"
    (Some [message_of 0 [mkHeader "Subject" "Question"; mkHeader "From" "ann@example.org"];
           message_of 1000 [mkHeader "Subject" "Re: Question";
                            mkHeader "From" "Boss <boss@company.com>";
                            mkHeader "To" "ann@example.org"]]).

(** C4 fails as stated: when the clock passes the two hours between
    the reading of the score and the reading of the tier, the thread
    has the urgency score 7 and is not of high importance; and a
    thread whose sender, its first participant, is of a VIP domain is
    of low importance, the sender of its first message being
    another. *)
Lemma tier_read_after_score :
  ∃ t t',
    parseThread two_hours_old_thread (2 * 3600000 - 1) (2 * 3600000) = Some t ∧
    EmailThread.urgencyScore t = 7 ∧
    EmailThread.importance t = medium ∧
    ¬ (EmailThread.importance t = high ↔
       7 ≤ EmailThread.urgencyScore t ∨
       isVIPSender (getFromEmail two_hours_old_thread) = true) ∧
    parseThread vip_reply_thread (100 * 3600000) (100 * 3600000) = Some t' ∧
    EmailThread.participants t' = ["boss@company.com"; "ann@example.org"] ∧
    isVIPSender "boss@company.com" = true ∧
    EmailThread.importance t' = low.
Proof.
  eexists _, _. split; [vm_compute; reflexivity|]. split; [done|]. split; [done|].
  split; [simpl; intros [_ H]; by discriminate H; left|].
  split; [vm_compute; reflexivity|]. by repeat split.
Qed.
End scoring_claims.

(** ** The brief cache *)

Section cache_claims.
Import BriefData BriefService.

(** The two cache entries hold what [cacheBrief] writes under them: a
    serialized brief and a date string. *)
Definition cache_wf (st : Storage) : Prop :=
  (∀ s, st !! BRIEF_CACHE_KEY = Some s → ∃ b, s = json b) ∧
  (∀ s, st !! BRIEF_TIMESTAMP_KEY = Some s → ∃ t, s = iso t).

(** A brief of the given instant without events or emails. *)
Definition empty_brief (t : Z) : BriefData.t := assemble t t [] [].

Lemma keys_differ : BRIEF_CACHE_KEY ≠ BRIEF_TIMESTAMP_KEY.
Proof. done. Qed.

Lemma clearCache_lookup_data st : clearCache st !! BRIEF_CACHE_KEY = None.
Proof.
  unfold clearCache. rewrite lookup_delete_ne by (symmetry; apply keys_differ).
  apply lookup_delete_eq.
Qed.

Lemma clearCache_lookup_time st : clearCache st !! BRIEF_TIMESTAMP_KEY = None.
Proof. unfold clearCache. apply lookup_delete_eq. Qed.

Lemma cacheBrief_lookup_data b now st : cacheBrief b now st !! BRIEF_CACHE_KEY = Some (json b).
Proof.
  unfold cacheBrief. rewrite lookup_insert_ne by (symmetry; apply keys_differ).
  apply lookup_insert_eq.
Qed.

Lemma cacheBrief_lookup_time b now st :
  cacheBrief b now st !! BRIEF_TIMESTAMP_KEY = Some (iso now).
Proof. unfold cacheBrief. apply lookup_insert_eq. Qed.

Lemma cache_wf_empty : cache_wf ∅.
Proof. split; intros s; by rewrite lookup_empty. Qed.

Lemma cache_wf_clearCache st : cache_wf (clearCache st).
Proof.
  split; intros s.
  - by rewrite clearCache_lookup_data.
  - by rewrite clearCache_lookup_time.
Qed.

Lemma cache_wf_cacheBrief b now st : cache_wf (cacheBrief b now st).
Proof.
  split; intros s.
  - rewrite cacheBrief_lookup_data. intros [= <-]. eauto.
  - rewrite cacheBrief_lookup_time. intros [= <-]. eauto.
Qed.

(** The lookup, case by case. *)
Lemma getCachedBrief_fresh now st b t :
  st !! BRIEF_CACHE_KEY = Some (json b) → st !! BRIEF_TIMESTAMP_KEY = Some (iso t) →
  now - t ≤ BRIEF_CACHE_DURATION → getCachedBrief now st = (Some b, st).
Proof.
  intros Hd Ht Hage. unfold getCachedBrief. rewrite Hd, Ht. simpl.
  by rewrite bool_decide_eq_false_2 by lia.
Qed.

Lemma getCachedBrief_stale now st s t :
  st !! BRIEF_CACHE_KEY = Some s → st !! BRIEF_TIMESTAMP_KEY = Some (iso t) →
  now - t > BRIEF_CACHE_DURATION → getCachedBrief now st = (None, clearCache st).
Proof.
  intros Hd Ht Hage. unfold getCachedBrief. rewrite Hd, Ht. simpl.
  by rewrite bool_decide_eq_true_2 by lia.
Qed.

Lemma getCachedBrief_absent now st :
  st !! BRIEF_CACHE_KEY = None ∨ st !! BRIEF_TIMESTAMP_KEY = None →
  getCachedBrief now st = (None, st).
Proof.
  unfold getCachedBrief. intros [->| ->]; [done|].
  by destruct (st !! BRIEF_CACHE_KEY).
Qed.

Lemma getCachedBrief_hit now st b :
  cache_wf st →
  (getCachedBrief now st).1 = Some b ↔
  st !! BRIEF_CACHE_KEY = Some (json b) ∧
  ∃ t, st !! BRIEF_TIMESTAMP_KEY = Some (iso t) ∧ now - t ≤ 5 * 60 * 1000.
Proof.
  intros [Hwd Hwt]. split.
  - unfold getCachedBrief.
    destruct (st !! BRIEF_CACHE_KEY) as [d|] eqn:Hd; [|done].
    destruct (st !! BRIEF_TIMESTAMP_KEY) as [s|] eqn:Hs; [|done].
    destruct (Hwt s eq_refl) as [t ->]. destruct (Hwd d eq_refl) as [b' ->]. simpl.
    case_bool_decide as Hage; simpl; [done|].
    intros [= ->]. split; [done|]. exists t. split; [done|].
    unfold BRIEF_CACHE_DURATION in Hage. lia.
  - intros (Hd & t & Ht & Hage).
    rewrite (getCachedBrief_fresh now st b t); [done..|].
    unfold BRIEF_CACHE_DURATION. lia.
Qed.

Lemma cache_wf_getCachedBrief now st : cache_wf st → cache_wf (getCachedBrief now st).2.
Proof.
  intros Hwf. unfold getCachedBrief.
  destruct (st !! BRIEF_CACHE_KEY); [|done].
  destruct (st !! BRIEF_TIMESTAMP_KEY); [|done].
  destruct (expired _ _); [apply cache_wf_clearCache|done].
Qed.

(** A run of [generateBrief] that misses the cache. *)
Lemma generateBrief_miss settings gmail calendar clock st st0 :
  getCachedBrief (t_check clock) st = (None, st0) →
  generateBrief settings gmail calendar clock st =
  complete clock
    (GmailService.getEmailsFromWindow gmail
       (window_or (AppSettings.emailWindow <$> settings) 96) (t_fetch clock))
    (CalendarService.getEventsFromWindow calendar
       (window_or (AppSettings.calendarWindow <$> settings) 24) (t_fetch clock))
    st0.
Proof. intros Hm. unfold generateBrief. by rewrite Hm. Qed.

Lemma generateBrief_hit settings gmail calendar clock st st0 b :
  getCachedBrief (t_check clock) st = (Some b, st0) →
  generateBrief settings gmail calendar clock st = (b, st0).
Proof. intros Hm. unfold generateBrief. by rewrite Hm. Qed.

Lemma cache_wf_generateBrief settings gmail calendar clock st :
  cache_wf st → cache_wf (generateBrief settings gmail calendar clock st).2.
Proof.
  intros Hwf. pose proof (cache_wf_getCachedBrief (t_check clock) st Hwf) as Hwf'.
  destruct (getCachedBrief (t_check clock) st) as [[b|] st0] eqn:Hg.
  - by rewrite (generateBrief_hit _ _ _ _ _ _ _ Hg).
  - rewrite (generateBrief_miss _ _ _ _ _ _ Hg). apply cache_wf_cacheBrief.
Qed.

(** C5: the cache lookup returns the stored brief iff both entries
    are present and [now - timestamp <= 5 minutes]; past 5 minutes the
    entry is discarded and the lookup misses, so that a call of
    [generateBrief] 6 minutes after a generation generates afresh;
    with one of the two entries absent the lookup misses. *)
Theorem getCachedBrief_five_minutes (now : Z) (st : Storage) :
  cache_wf st →
  (∀ b, (getCachedBrief now st).1 = Some b ↔
        st !! BRIEF_CACHE_KEY = Some (json b) ∧
        ∃ t, st !! BRIEF_TIMESTAMP_KEY = Some (iso t) ∧ now - t ≤ 5 * 60 * 1000) ∧
  (∀ b, (getCachedBrief now st).1 = Some b → (getCachedBrief now st).2 = st) ∧
  (∀ s t, st !! BRIEF_CACHE_KEY = Some s → st !! BRIEF_TIMESTAMP_KEY = Some (iso t) →
          now - t > 5 * 60 * 1000 →
          (getCachedBrief now st).1 = None ∧
          (getCachedBrief now st).2 !! BRIEF_CACHE_KEY = None ∧
          (getCachedBrief now st).2 !! BRIEF_TIMESTAMP_KEY = None) ∧
  (st !! BRIEF_CACHE_KEY = None ∨ st !! BRIEF_TIMESTAMP_KEY = None →
   getCachedBrief now st = (None, st)) ∧
  (∀ settings gmail calendar clock settings' gmail' calendar' clock',
     (getCachedBrief (t_check clock) st).1 = None →
     t_check clock' = t_cache clock + 6 * 60 * 1000 →
     generateBrief settings' gmail' calendar' clock'
       (generateBrief settings gmail calendar clock st).2 =
     complete clock'
       (GmailService.getEmailsFromWindow gmail'
          (window_or (AppSettings.emailWindow <$> settings') 96) (t_fetch clock'))
       (CalendarService.getEventsFromWindow calendar'
          (window_or (AppSettings.calendarWindow <$> settings') 24) (t_fetch clock'))
       (clearCache (generateBrief settings gmail calendar clock st).2)).
Proof.
  intros Hwf. split; [intros b; by apply getCachedBrief_hit|]. split.
  { intros b Hb. apply (getCachedBrief_hit now st b Hwf) in Hb as (Hd & t & Ht & Hage).
    rewrite (getCachedBrief_fresh now st b t); [done..|].
    unfold BRIEF_CACHE_DURATION. lia. }
  split.
  { intros s t Hd Ht Hage.
    rewrite (getCachedBrief_stale now st s t); [|done..|unfold BRIEF_CACHE_DURATION; lia].
    simpl. split; [done|]. split; [apply clearCache_lookup_data|apply clearCache_lookup_time]. }
  split; [apply getCachedBrief_absent|].
  intros settings gmail calendar clock settings' gmail' calendar' clock' Hmiss Hlater.
  destruct (getCachedBrief (t_check clock) st) as [cached st0] eqn:Hg.
  simpl in Hmiss. subst cached.
  rewrite (generateBrief_miss _ _ _ _ _ _ Hg).
  apply generateBrief_miss. unfold complete. simpl.
  eapply getCachedBrief_stale.
  - apply cacheBrief_lookup_data.
  - apply cacheBrief_lookup_time.
  - rewrite Hlater. unfold BRIEF_CACHE_DURATION. lia.
Qed.

Lemma getCachedBrief_five_minutes_witness :
  cache_wf (cacheBrief (empty_brief 0) 0 ∅) ∧
  (getCachedBrief (5 * 60 * 1000) (cacheBrief (empty_brief 0) 0 ∅)).1
    = Some (empty_brief 0) ∧
  (getCachedBrief (6 * 60 * 1000) (cacheBrief (empty_brief 0) 0 ∅)).1 = None.
Proof.
  split; [apply cache_wf_cacheBrief|]. split.
  - apply (getCachedBrief_five_minutes (5 * 60 * 1000) (cacheBrief (empty_brief 0) 0 ∅)
             (cache_wf_cacheBrief _ _ _)).
    split; [apply cacheBrief_lookup_data|].
    exists 0. split; [apply cacheBrief_lookup_time|lia].
  - eapply (getCachedBrief_five_minutes (6 * 60 * 1000) (cacheBrief (empty_brief 0) 0 ∅)
             (cache_wf_cacheBrief _ _ _)).
    + apply cacheBrief_lookup_data.
    + apply cacheBrief_lookup_time.
    + lia.
Defined.
End cache_claims.

(** ** The assembled brief *)

Section brief_claims.
Import BriefData BriefService.

(** Every brief held by the cache has its top emails cut from its
    emails. *)
Definition cache_briefs_cut (st : Storage) : Prop :=
  ∀ b, st !! BRIEF_CACHE_KEY = Some (json b) → topEmails b = take 3 (allEmails b).

(** The Gmail API answering with no thread, the Calendar API with no
    event. *)
Definition quiet_gmail : GmailService.Api :=
  GmailService.mkApi (λ _, ok None)
    (λ i, ok (Raw.mkThread i None)) (λ _, 0) (λ _, 0) 0.

(** The Gmail API answering with five unread threads, the thread
    [m<k>] being [k] hours old at the instant 36000000. *)
Definition busy_hours : gmap string Z :=
  list_to_map [("m1", 1); ("m2", 2); ("m3", 3); ("m4", 4); ("m5", 5)].

Definition busy_gmail : GmailService.Api :=
  GmailService.mkApi (λ _, ok (Some ["m1"; "m2"; "m3"; "m4"; "m5"]))
    (λ i, match busy_hours !! i with
          | Some h =>
              ok (single i (36000000 - 3600000 * h) (Some ["UNREAD"])
                    [Raw.mkHeader "Subject" "Status"; Raw.mkHeader "From" "ann@example.org"])
          | None => threw
          end)
    (λ _, 36000000) (λ _, 36000000) 36000000.

Definition quiet_calendar : CalendarService.Api := λ _ _, ok None.

Definition clock_at (t : Z) : Clock := mkClock t t t t t [].

Lemma assemble_cut t_id t_stamp emails events :
  topEmails (assemble t_id t_stamp emails events)
    = take 3 (allEmails (assemble t_id t_stamp emails events)).
Proof. done. Qed.

Lemma cache_briefs_cut_clearCache st : cache_briefs_cut (clearCache st).
Proof. intros b. by rewrite clearCache_lookup_data. Qed.

Lemma cache_briefs_cut_getCachedBrief now st :
  cache_briefs_cut st → cache_briefs_cut (getCachedBrief now st).2.
Proof.
  intros Hc. unfold getCachedBrief.
  destruct (st !! BRIEF_CACHE_KEY); [|done].
  destruct (st !! BRIEF_TIMESTAMP_KEY); [|done].
  destruct (expired _ _); [apply cache_briefs_cut_clearCache|done].
Qed.

Lemma getCachedBrief_stored now st b :
  (getCachedBrief now st).1 = Some b → st !! BRIEF_CACHE_KEY = Some (json b).
Proof.
  unfold getCachedBrief.
  destruct (st !! BRIEF_CACHE_KEY) as [d|]; [|done].
  destruct (st !! BRIEF_TIMESTAMP_KEY); [|done].
  destruct (expired _ _); [done|]. simpl. destruct d; [|done..]. by intros [= ->].
Qed.

(** C7: in every brief that [generateBrief] returns, generated by
    this call or by the earlier call that cached it, [topEmails] is
    the prefix of [allEmails] of length [min(3, |allEmails|)]. *)
Theorem topEmails_prefix_of_allEmails settings gmail calendar clock (st st' : Storage)
    (b : BriefData.t) :
  cache_briefs_cut st →
  generateBrief settings gmail calendar clock st = (b, st') →
  topEmails b `prefix_of` allEmails b ∧
  length (topEmails b) = Nat.min 3 (length (allEmails b)) ∧
  topEmails b = take 3 (allEmails b) ∧
  ((getCachedBrief (t_check clock) st).1 = None →
   b = assemble (t_id clock) (t_stamp clock) (allEmails b) (calendarEvents b)) ∧
  cache_briefs_cut st'.
Proof.
  intros Hc Hg.
  assert (topEmails b = take 3 (allEmails b) ∧
          ((getCachedBrief (t_check clock) st).1 = None →
           b = assemble (t_id clock) (t_stamp clock) (allEmails b) (calendarEvents b)) ∧
          cache_briefs_cut st') as (Hcut & Hfresh & Hc').
  { pose proof (cache_briefs_cut_getCachedBrief (t_check clock) st Hc) as Hc0.
    pose proof (getCachedBrief_stored (t_check clock) st) as Hst.
    destruct (getCachedBrief (t_check clock) st) as [[b0|] st0] eqn:Hl.
    - rewrite (generateBrief_hit _ _ _ _ _ _ _ Hl) in Hg. simplify_eq.
      split; [apply Hc, Hst; done|]. split; [done|]. exact Hc0.
    - rewrite (generateBrief_miss _ _ _ _ _ _ Hl) in Hg. unfold complete in Hg.
      simplify_eq. split; [done|]. split; [done|].
      intros b. rewrite cacheBrief_lookup_data. by intros [= <-]. }
  split; [rewrite Hcut; apply prefix_take|].
  split; [rewrite Hcut; apply length_take|]. done.
Qed.

(** Five emails are fetched: the brief lists all five, and its top
    emails are the first three of them. *)
Lemma topEmails_prefix_of_allEmails_witness :
  cache_briefs_cut ∅ ∧
  EmailThread.id <$>
    allEmails (generateBrief None busy_gmail quiet_calendar (clock_at 36000000) ∅).1
    = ["m1"; "m2"; "m3"; "m4"; "m5"] ∧
  EmailThread.id <$>
    topEmails (generateBrief None busy_gmail quiet_calendar (clock_at 36000000) ∅).1
    = ["m1"; "m2"; "m3"] ∧
  topEmails (generateBrief None busy_gmail quiet_calendar (clock_at 36000000) ∅).1
    `prefix_of` allEmails (generateBrief None busy_gmail quiet_calendar (clock_at 36000000) ∅).1 ∧
  length (topEmails (generateBrief None busy_gmail quiet_calendar (clock_at 36000000) ∅).1)
    = Nat.min 3
        (length (allEmails
                   (generateBrief None busy_gmail quiet_calendar (clock_at 36000000) ∅).1)).
Proof.
  split; [intros b; by rewrite lookup_empty|].
  split; [vm_compute; reflexivity|]. split; [vm_compute; reflexivity|].
  destruct (topEmails_prefix_of_allEmails None busy_gmail quiet_calendar (clock_at 36000000) ∅
              (generateBrief None busy_gmail quiet_calendar (clock_at 36000000) ∅).2
              (generateBrief None busy_gmail quiet_calendar (clock_at 36000000) ∅).1)
    as (Hprefix & Hlen & _).
  - intros b. by rewrite lookup_empty.
  - symmetry. apply surjective_pairing.
  - split; [exact Hprefix|exact Hlen].
Defined.
End brief_claims.

(** ** The email pipeline *)

Section pipeline_claims.
Import Raw GmailService.

(** The raw thread has a message. *)
Definition has_message (threadData : ThreadData) : Prop :=
  default [] (messages threadData) ≠ [].

Global Instance has_message_dec threadData : Decision (has_message threadData).
Proof. unfold has_message. apply _. Defined.

Lemma parseThread_Some threadData now now' latest :
  last (default [] (messages threadData)) = Some latest →
  ∃ t, parseThread threadData now now' = Some t ∧ EmailThread.id t = id threadData.
Proof.
  intros Hlast. unfold parseThread, calculateImportance, determineActionRequired,
    calculateUrgencyScore.
  rewrite Hlast. simpl. eauto.
Qed.

Lemma parseThread_None threadData now now' :
  ¬ has_message threadData → parseThread threadData now now' = None.
Proof.
  unfold has_message, parseThread. intros Hn.
  destruct (default [] (messages threadData)); [done|]. by destruct Hn.
Qed.

(** The threads parsed from the raw threads [tds] that answer the
    requests for [ids], each at its own readings of the clock. *)
Definition parsed_all (api : Api) (ids : list string) (tds : list ThreadData)
    : list EmailThread.t :=
  omap (λ p, parsed api p.1 p.2) (zip ids tds).

Lemma parsed_all_cons api i ids td tds :
  parsed_all api (i :: ids) (td :: tds)
  = match parsed api i td with
    | Some t => t :: parsed_all api ids tds
    | None => parsed_all api ids tds
    end.
Proof. unfold parsed_all. simpl. by destruct (parsed api i td). Qed.

Lemma parsed_ids api (ids : list string) (tds : list ThreadData) :
  length ids = length tds →
  EmailThread.id <$> parsed_all api ids tds = id <$> filter has_message tds.
Proof.
  revert ids. induction tds as [|td tds IH]; intros [|i ids] Hlen; try done.
  rewrite parsed_all_cons, filter_cons. injection Hlen as Hlen.
  destruct (decide (has_message td)) as [Hm|Hm].
  - apply last_is_Some in Hm as [latest Hlast].
    destruct (parseThread_Some td (now_score api i) (now_tier api i) latest Hlast)
      as (t & Ht & Hid).
    unfold parsed. rewrite Ht. by rewrite !fmap_cons, Hid, IH.
  - unfold parsed. rewrite (parseThread_None td _ _ Hm). by apply IH.
Qed.

Lemma collect_answered api ids tds :
  Forall2 (λ i td, threads_get api i = ok td) ids tds →
  collect api ids = Some (parsed_all api ids tds).
Proof.
  induction 1 as [|i td ids tds Hi _ IH]; [done|].
  rewrite parsed_all_cons. simpl. rewrite Hi, IH. simpl. by destruct (parsed api i td).
Qed.

Lemma collect_threw api ids i :
  i ∈ ids → threads_get api i = threw → collect api ids = None.
Proof.
  intros Hin Hi. induction ids as [|j ids IH]; [by apply elem_of_nil in Hin|].
  simpl. apply elem_of_cons in Hin as [<-|Hin]; [by rewrite Hi|].
  destruct (threads_get api j); [|done]. by rewrite (IH Hin).
Qed.

Lemma with_rationale_ids now (l : list EmailThread.t) :
  EmailThread.id <$> (with_rationale now <$> l) = EmailThread.id <$> l.
Proof. induction l as [|t l IH]; [done|]. by rewrite !fmap_cons, IH. Qed.

(** The deduplication key in the words of section 4.5 of the
    specification; the repository has no code for it.  The subject is
    lower-cased, its leading "re:" and "fwd:" tokens are stripped and it
    is trimmed; the participants are taken as a set. *)
Fixpoint trim_left (s : string) : string :=
  match s with
  | String c s' => if is_space c then trim_left s' else s
  | EmptyString => EmptyString
  end.

Fixpoint drop_chars (n : nat) (s : string) : string :=
  match n, s with
  | S n', String _ s' => drop_chars n' s'
  | _, _ => s
  end.

Fixpoint strip_tokens (fuel : nat) (s : string) : string :=
  match fuel with
  | O => s
  | S fuel' =>
      let s := trim_left s in
      if JS.startsWith "re:" s then strip_tokens fuel' (drop_chars 3 s)
      else if JS.startsWith "fwd:" s then strip_tokens fuel' (drop_chars 4 s)
      else s
  end.

Definition spec_normalize_subject (subject : string) : string :=
  let s := strip_tokens (String.length subject) (JS.toLowerCase subject) in
  String.rev (trim_left (String.rev (trim_left s))).

Definition spec_dedup_key (t : EmailThread.t) : string * gset string :=
  (spec_normalize_subject (EmailThread.subject t), list_to_set (EmailThread.participants t)).

(** A raw thread about the budget between Ann and Bob. *)
Definition budget_thread (i : string) : ThreadData :=
  single i 1000 (Some ["UNREAD"])
    [mkHeader "Subject" "Re: Q3 budget";
     mkHeader "From" "Ann <ann@example.org>";
     mkHeader "To" "bob@example.org"].

(** The API answers with the same conversation under two provider
    ids, one of each linked account. *)
Definition two_accounts : Api :=
  mkApi (λ _, ok (Some ["work-18f3"; "home-7c21"])) (λ i, ok (budget_thread i))
    (λ _, 5000) (λ _, 5000) 5000.

(** C8 (as the code has it): the pipeline does not deduplicate.  When
    every request is answered, [getEmailsFromWindow] emits one thread
    for each raw thread that has a message, under that raw thread's
    provider id, whatever the subjects and participants. *)
Theorem one_thread_per_raw_thread (api : Api) (hoursBack now : Z)
    (ids : list string) (tds : list ThreadData) :
  threads_list api ((now - hoursBack * 60 * 60 * 1000) `div` 1000) = ok (Some ids) →
  Forall2 (λ i td, threads_get api i = ok td) ids tds →
  let out := getEmailsFromWindow api hoursBack now in
  out ≡ₚ with_rationale (now_rank api) <$> parsed_all api ids tds ∧
  EmailThread.id <$> out ≡ₚ id <$> filter has_message tds ∧
  length out = length (filter has_message tds).
Proof.
  intros Hlist Hget out.
  assert (out ≡ₚ with_rationale (now_rank api) <$> parsed_all api ids tds) as Hp.
  { unfold out, getEmailsFromWindow. rewrite Hlist. simpl.
    rewrite (collect_answered api ids tds Hget). apply sort_perm. }
  assert (EmailThread.id <$> out ≡ₚ id <$> filter has_message tds) as Hids.
  { rewrite Hp, with_rationale_ids, parsed_ids; [done|]. by eapply Forall2_length. }
  split; [done|]. split; [done|].
  apply Permutation_length in Hids. by rewrite !length_fmap in Hids.
Qed.

Lemma one_thread_per_raw_thread_witness :
  threads_list two_accounts ((5000 - 96 * 60 * 60 * 1000) `div` 1000)
    = ok (Some ["work-18f3"; "home-7c21"]) ∧
  Forall2 (λ i td, threads_get two_accounts i = ok td) ["work-18f3"; "home-7c21"]
    [budget_thread "work-18f3"; budget_thread "home-7c21"] ∧
  length (getEmailsFromWindow two_accounts 96 5000) = 2%nat.
Proof.
  split; [reflexivity|]. split; [repeat constructor|].
  apply (one_thread_per_raw_thread two_accounts 96 5000 ["work-18f3"; "home-7c21"]
           [budget_thread "work-18f3"; budget_thread "home-7c21"]).
  - reflexivity.
  - repeat constructor.
Defined.

(** C8 fails as stated: two raw threads with the same deduplication
    key and different provider ids both appear in the brief. *)
Lemma same_key_threads_both_emitted :
  ∃ t1 t2,
    BriefData.allEmails
      (BriefService.generateBrief None two_accounts quiet_calendar (clock_at 5000) ∅).1
      = [t1; t2] ∧
    EmailThread.id t1 = "work-18f3" ∧ EmailThread.id t2 = "home-7c21" ∧
    EmailThread.subject t1 = EmailThread.subject t2 ∧
    EmailThread.participants t1 = EmailThread.participants t2 ∧
    spec_dedup_key t1 = spec_dedup_key t2.
Proof.
  eexists _, _. split; [vm_compute; reflexivity|]. by repeat split.
Qed.
End pipeline_claims.

(** ** Source failures *)

Section failure_claims.
Import BriefData BriefService.
Import GmailService (threads_list, threads_get, getEmailsFromWindow).

(** Every request to the source throws. *)
Definition gmail_down : GmailService.Api :=
  GmailService.mkApi (λ _, threw) (λ _, threw) (λ _, 0) (λ _, 0) 0.

Definition calendar_down : CalendarService.Api := λ _ _, threw.

(** An earlier brief with one email. *)
Definition earlier_brief : BriefData.t :=
  assemble 0 0 [thread_of "t1" high 8 0] [].

Lemma getEmailsFromWindow_list_threw api hoursBack now :
  threads_list api ((now - hoursBack * 60 * 60 * 1000) `div` 1000) = threw →
  getEmailsFromWindow api hoursBack now = [].
Proof. intros H. unfold getEmailsFromWindow. by rewrite H. Qed.

Lemma getEmailsFromWindow_get_threw api hoursBack now ids i :
  threads_list api ((now - hoursBack * 60 * 60 * 1000) `div` 1000) = ok (Some ids) →
  i ∈ ids → threads_get api i = threw →
  getEmailsFromWindow api hoursBack now = [].
Proof.
  intros Hl Hin Hi. unfold getEmailsFromWindow. rewrite Hl. simpl.
  by rewrite (collect_threw api ids i Hin Hi).
Qed.

Lemma getEventsFromWindow_threw (api : CalendarService.Api) hoursAhead now :
  api now (now + hoursAhead * 60 * 60 * 1000) = threw →
  CalendarService.getEventsFromWindow api hoursAhead now = [].
Proof. intros H. unfold CalendarService.getEventsFromWindow. by rewrite H. Qed.

(** C9 (as the code has it): a failed source request is caught inside
    [getEmailsFromWindow] / [getEventsFromWindow], which then return
    the empty list; [generateBrief], on a cache miss, returns and
    caches the brief assembled from what the sources returned, stamped
    with the current instant; a cached brief older than 5 minutes is a
    miss and is erased by the lookup, so it is not returned. *)
Theorem failed_fetch_gives_fresh_brief settings (gmail : GmailService.Api)
    (calendar : CalendarService.Api) (clock : Clock) (st : Storage) :
  let emailWindow := window_or (AppSettings.emailWindow <$> settings) 96 in
  let calendarWindow := window_or (AppSettings.calendarWindow <$> settings) 24 in
  let emails := getEmailsFromWindow gmail emailWindow (t_fetch clock) in
  let events := CalendarService.getEventsFromWindow calendar calendarWindow (t_fetch clock) in
  let after := (t_fetch clock - emailWindow * 60 * 60 * 1000) `div` 1000 in
  (threads_list gmail after = threw → emails = []) ∧
  (∀ ids i, threads_list gmail after = ok (Some ids) → i ∈ ids →
            threads_get gmail i = threw → emails = []) ∧
  (calendar (t_fetch clock) (t_fetch clock + calendarWindow * 60 * 60 * 1000) = threw →
   events = []) ∧
  ((getCachedBrief (t_check clock) st).1 = None →
   ∃ b st',
     generateBrief settings gmail calendar clock st = (b, st') ∧
     b = assemble (t_id clock) (t_stamp clock) emails events ∧
     timestamp b = t_stamp clock ∧
     st' !! BRIEF_CACHE_KEY = Some (json b) ∧
     st' !! BRIEF_TIMESTAMP_KEY = Some (iso (t_cache clock))) ∧
  (∀ b0 t, st !! BRIEF_CACHE_KEY = Some (json b0) →
           st !! BRIEF_TIMESTAMP_KEY = Some (iso t) →
           t_check clock - t > 5 * 60 * 1000 →
           (getCachedBrief (t_check clock) st).1 = None).
Proof.
  intros emailWindow calendarWindow emails events after.
  split; [apply getEmailsFromWindow_list_threw|].
  split; [apply getEmailsFromWindow_get_threw|].
  split; [apply getEventsFromWindow_threw|]. split.
  - intros Hmiss.
    destruct (getCachedBrief (t_check clock) st) as [cached st0] eqn:Hg.
    simpl in Hmiss. subst cached.
    eexists _, _. split; [by apply generateBrief_miss|].
    split; [done|]. split; [done|].
    split; [apply cacheBrief_lookup_data|apply cacheBrief_lookup_time].
  - intros b0 t Hd Ht Hage.
    rewrite (getCachedBrief_stale _ st (json b0) t); [done..|].
    unfold BRIEF_CACHE_DURATION. lia.
Qed.

Lemma failed_fetch_gives_fresh_brief_witness :
  threads_list gmail_down ((600000 - 96 * 60 * 60 * 1000) `div` 1000) = threw ∧
  getEmailsFromWindow gmail_down 96 600000 = [].
Proof.
  split; [reflexivity|].
  apply (failed_fetch_gives_fresh_brief None gmail_down calendar_down (clock_at 600000) ∅).
  reflexivity.
Defined.

(** C9 fails as stated: with both sources down and an expired brief
    in the cache, [generateBrief] returns a new, empty brief stamped
    with the current instant, not the cached one; with both sources
    down and an empty cache it returns the same empty brief, not an
    error. *)
Lemma stale_brief_not_served :
  (generateBrief None gmail_down calendar_down (clock_at 600000)
     (cacheBrief earlier_brief 0 ∅)).1 = empty_brief 600000 ∧
  timestamp (empty_brief 600000) ≠ timestamp earlier_brief ∧
  allEmails (empty_brief 600000) ≠ allEmails earlier_brief ∧
  (generateBrief None gmail_down calendar_down (clock_at 600000) ∅).1 = empty_brief 600000.
Proof.
  split.
  - rewrite (generateBrief_miss _ _ _ _ _ (clearCache (cacheBrief earlier_brief 0 ∅))).
    + reflexivity.
    + eapply getCachedBrief_stale;
        [apply cacheBrief_lookup_data|apply cacheBrief_lookup_time|done].
  - split; [done|]. split; [done|].
    by rewrite (generateBrief_miss _ _ _ _ _ ∅).
Qed.
End failure_claims.

(** ** Concurrent callers *)

Section concurrency_claims.
Import BriefData BriefService.

#[local] Arguments getCachedBrief : simpl never.
#[local] Arguments cacheBrief : simpl never.

(** One call alone is [generateBrief]. *)
Lemma run_one_call settings gmail calendar clock st :
  let emails := GmailService.getEmailsFromWindow gmail
    (window_or (AppSettings.emailWindow <$> settings) 96) (t_fetch clock) in
  let events := CalendarService.getEventsFromWindow calendar
    (window_or (AppSettings.calendarWindow <$> settings) 24) (t_fetch clock) in
  let '(b, st') := generateBrief settings gmail calendar clock st in
  run [cache_read 0 (t_check clock); sources_answered 0 clock emails events] (invoked 1 st)
    = mkSystem st' [returned b].
Proof.
  intros emails events. unfold generateBrief, run, invoked. simpl.
  destruct (getCachedBrief (t_check clock) st) as [[b|] st0]; done.
Qed.

(** C6 (as the code has it): there is no registry of generations in
    flight.  Two calls on a cold cache whose lookups both run before
    either brief is stored start two generations, and each returns the
    brief of its own generation; the second call is served the brief
    of the first only when its lookup runs after that brief was
    stored, within 5 minutes. *)
Theorem concurrent_calls_generate_twice (st : Storage) (t0 t1 : Z) (c0 c1 : Clock)
    (e0 e1 : list EmailThread.t) (v0 v1 : list CalendarEvent.t) :
  st !! BRIEF_CACHE_KEY = None →
  in_flight (run [cache_read 0 t0; cache_read 1 t1] (invoked 2 st)) = 2%nat ∧
  calls (run [cache_read 0 t0; cache_read 1 t1;
              sources_answered 0 c0 e0 v0; sources_answered 1 c1 e1 v1] (invoked 2 st))
    = [returned (assemble (t_id c0) (t_stamp c0) e0 v0);
       returned (assemble (t_id c1) (t_stamp c1) e1 v1)] ∧
  (t1 - t_cache c0 ≤ 5 * 60 * 1000 →
   in_flight (run [cache_read 0 t0] (invoked 2 st)) = 1%nat ∧
   in_flight (run [cache_read 0 t0; sources_answered 0 c0 e0 v0] (invoked 2 st)) = 0%nat ∧
   run [cache_read 0 t0; sources_answered 0 c0 e0 v0; cache_read 1 t1] (invoked 2 st)
     = mkSystem (cacheBrief (assemble (t_id c0) (t_stamp c0) e0 v0) (t_cache c0)
                   (write_tokens (t_tokens c0) st))
         [returned (assemble (t_id c0) (t_stamp c0) e0 v0);
          returned (assemble (t_id c0) (t_stamp c0) e0 v0)]).
Proof.
  intros Hcold.
  assert (∀ now, getCachedBrief now st = (None, st)) as Hmiss
    by (intros now; apply getCachedBrief_absent; by left).
  unfold run, invoked. simpl. rewrite !Hmiss. simpl. rewrite ?Hmiss. simpl.
  split; [done|]. split; [done|]. intros Hage.
  split; [done|]. split; [done|].
  rewrite (getCachedBrief_fresh t1 _ (assemble (t_id c0) (t_stamp c0) e0 v0) (t_cache c0));
    [done|apply cacheBrief_lookup_data|apply cacheBrief_lookup_time|].
  unfold BRIEF_CACHE_DURATION. lia.
Qed.

Lemma concurrent_calls_generate_twice_witness :
  (∅ : Storage) !! BRIEF_CACHE_KEY = None ∧
  in_flight (run [cache_read 0 10; cache_read 1 20] (invoked 2 ∅)) = 2%nat.
Proof.
  split; [reflexivity|].
  apply (concurrent_calls_generate_twice ∅ 10 20 (clock_at 30) (clock_at 40) [] [] [] []).
  reflexivity.
Defined.

(** C6 fails as stated: after both lookups of two calls on an empty
    cache, two generations are in flight, and the two callers receive
    different briefs. *)
Lemma two_generations_in_flight :
  in_flight (run [cache_read 0 10; cache_read 1 20] (invoked 2 ∅)) = 2%nat ∧
  calls (run [cache_read 0 10; cache_read 1 20;
              sources_answered 0 (clock_at 30) [] []; sources_answered 1 (clock_at 40) [] []]
           (invoked 2 ∅))
    = [returned (empty_brief 30); returned (empty_brief 40)] ∧
  empty_brief 30 ≠ empty_brief 40.
Proof. split; [reflexivity|]. split; [reflexivity|]. done. Qed.
End concurrency_claims.

(** * Further properties of the services *)

(** ** Parsed and ranked threads *)

Section thread_facts.
Import Raw GmailService.



Lemma collect_parsed api ids threads :
  collect api ids = Some threads →
  Forall (λ t, ∃ i threadData,
            threads_get api i = ok threadData ∧ parsed api i threadData = Some t) threads.
Proof.
  revert threads. induction ids as [|i ids IH]; intros threads; simpl.
  - intros [= <-]. constructor.
  - destruct (threads_get api i) as [threadData|] eqn:Hget; [|done].
    destruct (collect api ids) as [rest|]; [|done]. simpl.
    destruct (parsed api i threadData) as [t|] eqn:Hp; intros [= <-].
    + constructor; [eauto|by apply IH].
    + by apply IH.
Qed.

Lemma getEmailsFromWindow_parsed api hoursBack now t :
  t ∈ getEmailsFromWindow api hoursBack now →
  ∃ i threadData t0,
    threads_get api i = ok threadData ∧ parsed api i threadData = Some t0 ∧
    t = with_rationale (now_rank api) t0.
Proof.
  unfold getEmailsFromWindow.
  destruct (threads_list api _) as [listing|]; [|by intros ?%elem_of_nil].
  destruct (collect api (default [] listing)) as [threads|] eqn:Hc;
    [|by intros ?%elem_of_nil].
  rewrite rankThreads_unfold, sort_perm.
  intros (t0 & -> & Hin)%list_elem_of_fmap.
  apply collect_parsed in Hc.
  eapply Forall_forall in Hc as (i & threadData & Hget & Hp); [|exact Hin]. eauto 6.
Qed.

Lemma getEmailsFromWindow_sorted api hoursBack now :
  StronglySorted ranks_before (getEmailsFromWindow api hoursBack now).
Proof.
  unfold getEmailsFromWindow.
  destruct (threads_list api _) as [listing|]; [|constructor].
  destruct (collect api (default [] listing)) as [threads|]; [|constructor].
  rewrite rankThreads_unfold.
  eapply StronglySorted_weaken; [|apply (sort_sorted by_rank)].
  intros a b. apply before_by_rank.
Qed.

(** The four reasons, and the text when none applies. *)
Lemma generateRationale_cases now thread :
  let r := generateRationale now thread in
  let urgent := bool_decide (7 ≤ EmailThread.urgencyScore thread) in
  let recent := bool_decide (now - EmailThread.lastMessageDate thread < 24 * 3600000) in
  r ≠ "" ∧
  JS.includes r "High urgency score" = urgent ∧
  JS.includes r "Unread message" = EmailThread.isUnread thread ∧
  JS.includes r "Action required" = EmailThread.actionRequired thread ∧
  JS.includes r "Recent message" = recent ∧
  (r = "Standard priority" ↔
   urgent = false ∧ EmailThread.isUnread thread = false ∧
   EmailThread.actionRequired thread = false ∧ recent = false).
Proof.
  unfold generateRationale, hoursAgo_lt, hour.
  change (24 * (1000 * 60 * 60)) with (24 * 3600000).
  destruct (bool_decide (7 ≤ EmailThread.urgencyScore thread)),
    (EmailThread.isUnread thread), (EmailThread.actionRequired thread),
    (bool_decide (now - EmailThread.lastMessageDate thread < 24 * 3600000));
    vm_compute; repeat split; intros; try done; destruct_and?; done.
Qed.
End thread_facts.

Section thread_properties.
Import Raw GmailService.

(** X1: the rationale is never empty; each of the four reasons occurs
    in it exactly when its condition holds (urgency >= 7, unread,
    action required, latest message less than 24 hours old); it is
    "Standard priority" exactly when none holds. *)
Theorem generateRationale_reasons (now : Z) (thread : EmailThread.t) :
  let r := generateRationale now thread in
  let urgent := bool_decide (7 ≤ EmailThread.urgencyScore thread) in
  let recent := bool_decide (now - EmailThread.lastMessageDate thread < 24 * 3600000) in
  r ≠ "" ∧
  JS.includes r "High urgency score" = urgent ∧
  JS.includes r "Unread message" = EmailThread.isUnread thread ∧
  JS.includes r "Action required" = EmailThread.actionRequired thread ∧
  JS.includes r "Recent message" = recent ∧
  (r = "Standard priority" ↔
   urgent = false ∧ EmailThread.isUnread thread = false ∧
   EmailThread.actionRequired thread = false ∧ recent = false).
Proof. apply generateRationale_cases. Qed.


(** X3: [parseThread] returns null exactly for a raw thread without a
    message.  Otherwise the thread carries the raw thread's id, the
    date and the unread label of the latest message, a subject that is
    not empty, at most two participants, none of them empty, and no
    rationale yet. *)
Theorem parseThread_fields (threadData : ThreadData) (now now' : Z) :
  (parseThread threadData now now' = None ↔ default [] (messages threadData) = []) ∧
  (∀ latest, last (default [] (messages threadData)) = Some latest →
     ∃ t, parseThread threadData now now' = Some t ∧
       EmailThread.id t = id threadData ∧
       EmailThread.lastMessageDate t = internalDate latest ∧
       (EmailThread.isUnread t = true ↔
        ∃ ls, labelIds latest = Some ls ∧ "UNREAD" ∈ ls) ∧
       EmailThread.snippet t = default "" (snippet latest) ∧
       EmailThread.subject t ≠ "" ∧
       (length (EmailThread.participants t) ≤ 2)%nat ∧
       Forall (λ p, p ≠ "") (EmailThread.participants t) ∧
       EmailThread.rationale t = None).
Proof.
  split.
  - rewrite <- last_None. split.
    + destruct (last (default [] (messages threadData))) as [latest|] eqn:Hl; [|done].
      destruct (parseThread_Some threadData now now' latest Hl) as (t & Ht & _).
      by rewrite Ht.
    + intros Hl. unfold parseThread. by rewrite Hl.
  - intros latest Hl.
    unfold parseThread, calculateImportance, determineActionRequired, calculateUrgencyScore.
    rewrite Hl. simpl. eexists. split; [reflexivity|]. simpl.
    split; [done|]. split; [done|]. split; [apply has_label_labelled|].
    split; [|split; [|split; [|split]]].
    + unfold JS.or_default. destruct (snippet latest) as [s|]; [|done]. simpl.
      unfold JS.truthy. by case_bool_decide.
    + unfold JS.truthy. case_bool_decide; [done|]. simpl. done.
    + repeat (destruct (JS.truthy _); simpl); lia.
    + apply Forall_forall. intros p Hin%list_elem_of_In%filter_In.
      destruct Hin as [_ Ht]. unfold JS.truthy in Ht.
      by apply negb_true_iff, bool_decide_eq_false in Ht.
    + done.
Qed.
End thread_properties.

Section address_properties.
Import Raw GmailService.





End address_properties.

Section more_thread_properties.
Import Raw GmailService.

Global Instance by_date_consistent : JS.Consistent by_date.
Proof. split; unfold by_date; intros; lia. Qed.

Lemma parseThread_no_rationale threadData now now' t :
  parseThread threadData now now' = Some t → EmailThread.rationale t = None.
Proof.
  unfold parseThread.
  destruct (last (default [] (messages threadData))) as [latest|]; [|done]. simpl.
  destruct (calculateUrgencyScore threadData now) as [u|]; [|done]. simpl.
  destruct (calculateImportance threadData now') as [i|]; [|done]. simpl.
  destruct (determineActionRequired threadData) as [a|]; [|done]. simpl.
  by intros [= <-].
Qed.

(** X5: [getThreads] returns the parsed threads newest first, threads
    of the same instant in the order of the listing, without rationale;
    it returns no thread when the listing request or a detail request
    throws. *)
Theorem getThreads_newest_first (listing : Response (option (list string))) (api : Api) :
  let out := getThreads listing api in
  StronglySorted (λ a b, EmailThread.lastMessageDate b ≤ EmailThread.lastMessageDate a) out ∧
  Forall (λ t, EmailThread.rationale t = None) out ∧
  (listing = threw → out = []) ∧
  (∀ ids tds, listing = ok (Some ids) →
     Forall2 (λ i td, threads_get api i = ok td) ids tds →
     out ≡ₚ parsed_all api ids tds ∧
     ∀ x, filter (λ t, EmailThread.lastMessageDate t = EmailThread.lastMessageDate x) out
          = filter (λ t, EmailThread.lastMessageDate t = EmailThread.lastMessageDate x)
              (parsed_all api ids tds)) ∧
  (∀ ids i, listing = ok (Some ids) → i ∈ ids → threads_get api i = threw → out = []).
Proof.
  intros out. unfold out, getThreads. split; [|split; [|split; [|split]]].
  - destruct listing as [threads|]; [|constructor].
    destruct (collect api (default [] threads)); [|constructor].
    eapply StronglySorted_weaken; [|apply (sort_sorted by_date)].
    unfold before, by_date. intros; lia.
  - destruct listing as [threads|]; [|constructor].
    destruct (collect api (default [] threads)) as [ts|] eqn:Hc; [|constructor].
    rewrite sort_perm. apply collect_parsed in Hc.
    eapply Forall_impl; [exact Hc|]. intros t (i & td & _ & Hp). simpl in Hp.
    by eapply parseThread_no_rationale.
  - by intros ->.
  - intros ids tds -> Hget. simpl.
    rewrite (collect_answered api ids tds Hget). split; [apply sort_perm|].
    intros x.
    pose proof (sort_stable by_date x (parsed_all api ids tds)) as Hst.
    etransitivity; [|etransitivity; [exact Hst|]];
      apply list_filter_iff; intros t; unfold tied, by_date; lia.
  - intros ids i -> Hin Hi. simpl. by rewrite (collect_threw api ids i Hin Hi).
Qed.


End more_thread_properties.

(** ** More on conflict detection *)

Section calendar_properties.
Import CalendarEvent CalendarService.

Lemma sort_of_sorted {A : Type} (cmp : A → A → Z) (l : list A) :
  StronglySorted (before cmp) l → JS.sort cmp l = l.
Proof.
  induction 1 as [|a l Hl IH Ha]; [done|].
  simpl. fold (JS.sort cmp l). rewrite IH.
  destruct Ha as [|y l' Hay _]; simpl; [done|].
  by rewrite bool_decide_eq_true_2.
Qed.

Lemma overlap_at_mark_all ps s a b : overlap_at (mark_all ps s) a b = overlap_at s a b.
Proof.
  revert s. induction ps as [|p ps IH]; intros s; [done|].
  unfold mark_all in *. simpl. by rewrite IH, overlap_at_mark_pair.
Qed.

Lemma hit_ext s s' ps q :
  (∀ a b, overlap_at s a b = overlap_at s' a b) → hit s ps q = hit s' ps q.
Proof.
  intros He. unfold hit. induction ps as [|p ps IH]; simpl; [done|].
  by rewrite IH, He.
Qed.

Lemma mark_conflicts_length s : length (mark_conflicts s) = length s.
Proof. apply (Forall2_length _ _ _ (mark_conflicts_same s)). Qed.

Lemma mark_conflicts_idemp s : mark_conflicts (mark_conflicts s) = mark_conflicts s.
Proof.
  apply list_eq. intros q.
  rewrite (mark_conflicts_lookup (mark_conflicts s)), mark_conflicts_length.
  rewrite (hit_ext (mark_conflicts s) s).
  - rewrite mark_conflicts_lookup. destruct (s !! q) as [e|]; [|done]. simpl.
    rewrite touch_touch. by destruct (hit s (pairs (length s)) q).
  - intros a b. rewrite mark_conflicts_pairs. apply overlap_at_mark_all.
Qed.

(** X7: two events that each start before they end overlap, for
    [eventsOverlap], exactly when some instant lies in both half-open
    intervals; the test is symmetric, and an event that ends when the
    other starts does not overlap it. *)
Theorem eventsOverlap_common_instant (a b : t) :
  start a < end_ a → start b < end_ b →
  (eventsOverlap a b = true ↔
   ∃ instant, start a ≤ instant < end_ a ∧ start b ≤ instant < end_ b) ∧
  eventsOverlap a b = eventsOverlap b a ∧
  (end_ a = start b → eventsOverlap a b = false).
Proof.
  intros Ha Hb. split; [|split].
  - rewrite eventsOverlap_overlaps. unfold overlaps. split.
    + intros [H1 H2]. exists (Z.max (start a) (start b)). lia.
    + intros (i & H1 & H2). lia.
  - apply eventsOverlap_sym.
  - intros He. apply not_true_is_false. rewrite eventsOverlap_overlaps.
    unfold overlaps. lia.
Qed.

Lemma eventsOverlap_common_instant_witness :
  start (meeting "a" 0 10) < end_ (meeting "a" 0 10) ∧
  start (meeting "b" 5 20) < end_ (meeting "b" 5 20) ∧
  eventsOverlap (meeting "a" 0 10) (meeting "b" 5 20)
    = eventsOverlap (meeting "b" 5 20) (meeting "a" 0 10).
Proof.
  split; [done|]. split; [done|].
  by apply (eventsOverlap_common_instant (meeting "a" 0 10) (meeting "b" 5 20)).
Defined.

(** X8: [detectConflicts] is idempotent: applied to its own result it
    changes nothing. *)
Theorem detectConflicts_idempotent (events : list t) :
  detectConflicts (detectConflicts events) = detectConflicts events.
Proof.
  unfold detectConflicts at 1.
  rewrite (sort_of_sorted by_start (detectConflicts events)).
  - unfold detectConflicts. apply mark_conflicts_idemp.
  - eapply StronglySorted_weaken; [|apply detectConflicts_sorted].
    unfold before, by_start. intros a b. simpl. lia.
Qed.

(** X9: [detectConflicts] never clears a flag.  Position by position
    against the sorted input, an event of the result is flagged exactly
    when it was flagged on input or overlaps the event of another
    position, and its flag is otherwise the input's. *)
Theorem detectConflicts_keeps_flags (events : list t) :
  Forall2 (λ o i,
    (conflicts i = Some true → conflicts o = Some true) ∧
    (conflicts o = Some true ∨ conflicts o = conflicts i))
    (detectConflicts events) (JS.sort by_start events) ∧
  (∀ p o, detectConflicts events !! p = Some o →
     conflicts o = Some true ↔
     (∃ i, JS.sort by_start events !! p = Some i ∧ conflicts i = Some true) ∨
     (∃ q o', q ≠ p ∧ detectConflicts events !! q = Some o' ∧
              start o < end_ o' ∧ start o' < end_ o)).
Proof.
  split; [|apply detectConflicts_flag].
  apply Forall2_same_length_lookup_2.
  - apply mark_conflicts_length.
  - intros q o i Ho Hi. unfold detectConflicts in Ho.
    rewrite mark_conflicts_lookup, Hi in Ho. simpl in Ho. injection Ho as <-.
    destruct (hit _ _ q); simpl; [by split; [|left]|by split; [|right]].
Qed.
End calendar_properties.

Section calendar_service_properties.
Import CalendarEvent CalendarService.

Lemma parseEvent_Some eventData e :
  parseEvent eventData = Some e →
  conflicts e = Some false ∧ title e ≠ "" ∧ id e = ed_id eventData.
Proof.
  unfold parseEvent.
  destruct (ed_start eventData), (ed_end eventData); intros; simplify_eq; simpl.
  all: split; [done|]; split; [|done].
  all: unfold JS.or_default; destruct (ed_summary eventData) as [s|]; [|done].
  all: unfold JS.truthy; by case_bool_decide.
Qed.

Lemma parseEvent_length items :
  length (omap parseEvent items)
  = length (filter (λ d, is_Some (ed_start d) ∧ is_Some (ed_end d)) items).
Proof.
  induction items as [|d items IH]; [done|].
  rewrite filter_cons.
  assert (omap parseEvent (d :: items)
          = match parseEvent d with
            | Some e => e :: omap parseEvent items
            | None => omap parseEvent items
            end) as -> by done.
  unfold parseEvent at 1.
  destruct (ed_start d) as [s|], (ed_end d) as [e|];
    case_decide as Hd; simpl; rewrite ?IH; try done.
  - destruct Hd. split; eauto.
  - by destruct Hd as [_ [? ?]].
  - by destruct Hd as [[? ?] _].
  - by destruct Hd as [[? ?] _].
Qed.

Lemma eventsOfItems_spec items :
  let out := eventsOfItems items in
  StronglySorted (λ a b, start a ≤ start b) out ∧
  (∀ p e, out !! p = Some e →
     (conflicts e = Some true ↔
      ∃ q e', q ≠ p ∧ out !! q = Some e' ∧ start e < end_ e' ∧ start e' < end_ e) ∧
     (conflicts e = Some true ∨ conflicts e = Some false) ∧
     title e ≠ "") ∧
  length out = length (filter (λ d, is_Some (ed_start d) ∧ is_Some (ed_end d)) items).
Proof.
  intros out. unfold out, eventsOfItems.
  set (events := omap parseEvent items).
  assert (∀ p i, JS.sort by_start events !! p = Some i →
            conflicts i = Some false ∧ title i ≠ "") as Hparsed.
  { intros p i Hi.
    assert (i ∈ events) as Hin.
    { rewrite <- (sort_perm by_start events). by eapply list_elem_of_lookup_2. }
    apply list_elem_of_omap in Hin as (d & _ & Hd).
    apply parseEvent_Some in Hd. tauto. }
  split; [apply detectConflicts_sorted|]. split.
  - intros p e He.
    pose proof (detectConflicts_same events) as Hsame.
    destruct (Forall2_lookup_l _ _ _ _ _ Hsame He) as (i & Hi & Hei).
    destruct (Hparsed p i Hi) as [Hflag Htitle].
    split; [|split].
    + rewrite (detectConflicts_flag events p e He). split; [|by right].
      intros [(i' & Hi' & Hc)|Hr]; [|done]. rewrite Hi in Hi'. congruence.
    + unfold detectConflicts in He.
      rewrite mark_conflicts_lookup, Hi in He. simpl in He. injection He as <-.
      destruct (hit _ _ p); simpl; [by left|by right].
    + destruct Hei as (_ & Ht & _). by rewrite Ht.
  - rewrite (Forall2_length _ _ _ (detectConflicts_same events)), sort_length.
    apply parseEvent_length.
Qed.

(** X10: whatever the Calendar API answers, the events that
    [getEventsFromWindow] returns are sorted by start; each is flagged
    exactly when it overlaps another returned event, its flag is true or
    false (never absent) and its title is not empty; items without
    start or end are dropped and all others kept; a failed request
    gives no event. *)
Theorem window_events_sorted_and_marked (api : Api) (hoursAhead now : Z) :
  let out := getEventsFromWindow api hoursAhead now in
  StronglySorted (λ a b, start a ≤ start b) out ∧
  (∀ p e, out !! p = Some e →
     (conflicts e = Some true ↔
      ∃ q e', q ≠ p ∧ out !! q = Some e' ∧ start e < end_ e' ∧ start e' < end_ e) ∧
     (conflicts e = Some true ∨ conflicts e = Some false) ∧
     title e ≠ "") ∧
  (∀ items, api now (now + hoursAhead * 60 * 60 * 1000) = ok items →
     length out
     = length (filter (λ d, is_Some (ed_start d) ∧ is_Some (ed_end d)) (default [] items))) ∧
  (api now (now + hoursAhead * 60 * 60 * 1000) = threw → out = []).
Proof.
  intros out. unfold out, getEventsFromWindow.
  destruct (api now (now + hoursAhead * 60 * 60 * 1000)) as [items|].
  - destruct (eventsOfItems_spec (default [] items)) as (Hs & Hf & Hl).
    split; [exact Hs|]. split; [exact Hf|]. split; [|done].
    by intros ? [= <-].
  - split; [constructor|]. split; [by intros p e ?|]. by split.
Qed.

(** X11: an all-day event of one date overlaps every event that starts
    on that date, from 00:00:00 and before 23:59:59 of the device's
    time, and ends after it starts, whatever the length of the day: a
    timed meeting on a day that has an all-day event is marked as a
    conflict, and so is the all-day event. *)
Theorem all_day_event_overlaps (allDay timed : EventData) (a b : t) (day : LocalDate) :
  parseEvent allDay = Some a → parseEvent timed = Some b →
  ed_start allDay = Some (date day) → ed_end allDay = Some (date day) →
  T00_00_00 day ≤ start b < T23_59_59 day → start b < end_ b →
  eventsOverlap a b = true ∧
  conflicts <$> eventsOfItems [allDay; timed] = [Some true; Some true].
Proof.
  intros Ha Hb Hs He Hday Hwf.
  assert (start a = T00_00_00 day ∧ end_ a = T23_59_59 day) as [Hsa Hea].
  { unfold parseEvent in Ha. rewrite Hs, He in Ha. by injection Ha as <-. }
  assert (eventsOverlap a b = true) as Ho.
  { apply eventsOverlap_overlaps. unfold overlaps. lia. }
  split; [exact Ho|].
  destruct (parseEvent_Some _ _ Ha) as (Hca & _).
  destruct (parseEvent_Some _ _ Hb) as (Hcb & _).
  unfold eventsOfItems. simpl. rewrite Ha, Hb. simpl.
  unfold detectConflicts, JS.sort. simpl.
  rewrite bool_decide_eq_true_2 by (unfold by_start; lia).
  unfold mark_conflicts, JS.for_range, mark_pair. simpl. rewrite Ho. done.
Qed.

(** A holiday on a day of 23 hours and a review that starts ten hours
    into it. *)
Lemma all_day_event_overlaps_witness :
  eventsOverlap
    (mk "h" "Holiday" 0 82799000 None None (Some false))
    (mk "m" "Review" 36000000 39600000 None None (Some false)) = true ∧
  conflicts <$>
    eventsOfItems
      [mkEventData "h" (Some "Holiday") (Some (date (mkLocalDate 0 82799000)))
         (Some (date (mkLocalDate 0 82799000))) None None;
       mkEventData "m" (Some "Review") (Some (dateTime 36000000)) (Some (dateTime 39600000))
         None None]
    = [Some true; Some true].
Proof.
  apply (all_day_event_overlaps
    (mkEventData "h" (Some "Holiday") (Some (date (mkLocalDate 0 82799000)))
       (Some (date (mkLocalDate 0 82799000))) None None)
    (mkEventData "m" (Some "Review") (Some (dateTime 36000000)) (Some (dateTime 39600000))
       None None)
    _ _ (mkLocalDate 0 82799000)); try reflexivity; simpl; lia.
Defined.
End calendar_service_properties.

(** ** More on the brief cache *)

Section brief_cache_properties.
Import BriefData BriefService.

#[local] Arguments getCachedBrief : simpl never.
#[local] Arguments cacheBrief : simpl never.

Lemma clearCache_lookup_other k (st : Storage) :
  k ≠ BRIEF_CACHE_KEY → k ≠ BRIEF_TIMESTAMP_KEY → clearCache st !! k = st !! k.
Proof.
  intros Hd Ht. unfold clearCache.
  rewrite lookup_delete_ne by congruence.
  by rewrite lookup_delete_ne by congruence.
Qed.

Lemma clearCache_eq (st st' : Storage) :
  (∀ k, k ≠ BRIEF_CACHE_KEY → k ≠ BRIEF_TIMESTAMP_KEY → st !! k = st' !! k) →
  clearCache st = clearCache st'.
Proof.
  intros Hk. apply map_eq. intros k.
  destruct (decide (k = BRIEF_CACHE_KEY)) as [->|Hd].
  { by rewrite !clearCache_lookup_data. }
  destruct (decide (k = BRIEF_TIMESTAMP_KEY)) as [->|Ht].
  { by rewrite !clearCache_lookup_time. }
  rewrite !clearCache_lookup_other by done. by apply Hk.
Qed.

Lemma clearCache_cacheBrief b now st : clearCache (cacheBrief b now st) = clearCache st.
Proof.
  apply clearCache_eq. intros k Hd Ht. unfold cacheBrief.
  rewrite lookup_insert_ne by congruence.
  by rewrite lookup_insert_ne by congruence.
Qed.

Lemma clearCache_idemp st : clearCache (clearCache st) = clearCache st.
Proof. apply clearCache_eq. intros k Hd Ht. by apply clearCache_lookup_other. Qed.

Lemma clearCache_getCachedBrief now st : clearCache (getCachedBrief now st).2 = clearCache st.
Proof.
  unfold getCachedBrief.
  destruct (st !! BRIEF_CACHE_KEY); [|done].
  destruct (st !! BRIEF_TIMESTAMP_KEY); [|done].
  destruct (expired _ _); [apply clearCache_idemp|done].
Qed.

(** X12: a call of [generateBrief] that follows a generation by at
    most 5 minutes returns the brief of that generation and leaves the
    storage as it is, whatever the settings and whatever the sources
    would answer. *)
Theorem generateBrief_served_from_cache settings gmail calendar clock
    settings' gmail' calendar' clock' (st : Storage) :
  (getCachedBrief (t_check clock) st).1 = None →
  t_check clock' - t_cache clock ≤ 5 * 60 * 1000 →
  generateBrief settings' gmail' calendar' clock'
    (generateBrief settings gmail calendar clock st).2
  = generateBrief settings gmail calendar clock st.
Proof.
  intros Hmiss Hage.
  destruct (getCachedBrief (t_check clock) st) as [cached st0] eqn:Hg.
  simpl in Hmiss. subst cached.
  rewrite (generateBrief_miss _ _ _ _ _ _ Hg). unfold complete. simpl.
  apply generateBrief_hit, getCachedBrief_fresh with (t := t_cache clock).
  - apply cacheBrief_lookup_data.
  - apply cacheBrief_lookup_time.
  - unfold BRIEF_CACHE_DURATION. lia.
Qed.

Lemma generateBrief_served_from_cache_witness :
  (getCachedBrief (t_check (clock_at 0)) ∅).1 = None ∧
  generateBrief None gmail_down calendar_down (clock_at 240000)
    (generateBrief None two_accounts quiet_calendar (clock_at 0) ∅).2
  = generateBrief None two_accounts quiet_calendar (clock_at 0) ∅.
Proof.
  split; [reflexivity|].
  apply (generateBrief_served_from_cache None two_accounts quiet_calendar (clock_at 0)
           None gmail_down calendar_down (clock_at 240000) ∅).
  - reflexivity.
  - simpl. lia.
Defined.

Lemma getCachedBrief_lookup_other now (st : Storage) k :
  k ≠ BRIEF_CACHE_KEY → k ≠ BRIEF_TIMESTAMP_KEY → (getCachedBrief now st).2 !! k = st !! k.
Proof.
  intros Hd Ht.
  rewrite <- (clearCache_lookup_other k _ Hd Ht), clearCache_getCachedBrief.
  by apply clearCache_lookup_other.
Qed.

Lemma getCachedBrief_hit_storage now (st : Storage) :
  is_Some (getCachedBrief now st).1 → (getCachedBrief now st).2 = st.
Proof.
  unfold getCachedBrief.
  destruct (st !! BRIEF_CACHE_KEY); [|done].
  destruct (st !! BRIEF_TIMESTAMP_KEY); [|done].
  destruct (expired _ _); [|done]. simpl. by intros [? ?].
Qed.

Lemma cacheBrief_lookup_other b now (st : Storage) k :
  k ≠ BRIEF_CACHE_KEY → k ≠ BRIEF_TIMESTAMP_KEY → cacheBrief b now st !! k = st !! k.
Proof.
  intros Hd Ht. unfold cacheBrief.
  rewrite lookup_insert_ne by congruence.
  by rewrite lookup_insert_ne by congruence.
Qed.

(** A token entry is neither of the two cache entries. *)
Lemma tokens_key_not_cache accountId :
  tokens_key accountId ≠ BRIEF_CACHE_KEY ∧ tokens_key accountId ≠ BRIEF_TIMESTAMP_KEY.
Proof. split; discriminate. Qed.

Lemma write_tokens_lookup_other writes (st : Storage) k :
  (∀ w, w ∈ writes → k ≠ tokens_key w.1) → write_tokens writes st !! k = st !! k.
Proof.
  revert st. induction writes as [|w writes IH]; intros st Hk; [done|].
  unfold write_tokens. simpl. fold (write_tokens writes (<[tokens_key w.1 := tokens w.2]> st)).
  rewrite IH by (intros w' Hw'; apply Hk; by right).
  apply lookup_insert_ne. intros Heq. by apply (Hk w); [left|].
Qed.

Lemma write_tokens_lookup_data writes (st : Storage) :
  write_tokens writes st !! BRIEF_CACHE_KEY = st !! BRIEF_CACHE_KEY.
Proof.
  apply write_tokens_lookup_other. intros w _ Heq.
  by destruct (tokens_key_not_cache w.1) as [Hd _].
Qed.

Lemma write_tokens_lookup_time writes (st : Storage) :
  write_tokens writes st !! BRIEF_TIMESTAMP_KEY = st !! BRIEF_TIMESTAMP_KEY.
Proof.
  apply write_tokens_lookup_other. intros w _ Heq.
  by destruct (tokens_key_not_cache w.1) as [_ Ht].
Qed.

(** X13: [generateBrief] changes no entry of the storage other than
    the two cache entries and the token entries that its requests
    rewrite, and no entry at all when it is served from the cache;
    the token entries are not cache entries; [getScheduledBrief] and
    [invalidateCache] change no entry other than the two cache
    entries. *)
Theorem generateBrief_touches_cache_only settings gmail calendar clock (st : Storage) :
  (∀ k, k ≠ BRIEF_CACHE_KEY → k ≠ BRIEF_TIMESTAMP_KEY →
        (∀ w, w ∈ t_tokens clock → k ≠ tokens_key w.1) →
        (generateBrief settings gmail calendar clock st).2 !! k = st !! k) ∧
  (is_Some (getCachedBrief (t_check clock) st).1 →
   (generateBrief settings gmail calendar clock st).2 = st) ∧
  (∀ accountId,
     tokens_key accountId ≠ BRIEF_CACHE_KEY ∧ tokens_key accountId ≠ BRIEF_TIMESTAMP_KEY) ∧
  (∀ k, k ≠ BRIEF_CACHE_KEY → k ≠ BRIEF_TIMESTAMP_KEY →
        (getScheduledBrief (t_check clock) st).2 !! k = st !! k) ∧
  (∀ k, k ≠ BRIEF_CACHE_KEY → k ≠ BRIEF_TIMESTAMP_KEY → invalidateCache st !! k = st !! k).
Proof.
  split; [|split; [|split; [|split]]].
  - intros k Hd Ht Hk.
    pose proof (getCachedBrief_lookup_other (t_check clock) st k Hd Ht) as Hc.
    destruct (getCachedBrief (t_check clock) st) as [[b|] st0] eqn:Hg; simpl in Hc.
    + by rewrite (generateBrief_hit _ _ _ _ _ _ _ Hg).
    + rewrite (generateBrief_miss _ _ _ _ _ _ Hg). unfold complete. simpl.
      by rewrite cacheBrief_lookup_other, write_tokens_lookup_other.
  - intros Hhit. pose proof (getCachedBrief_hit_storage _ _ Hhit) as Hst.
    destruct (getCachedBrief (t_check clock) st) as [[b|] st0] eqn:Hg;
      [|by destruct Hhit].
    by rewrite (generateBrief_hit _ _ _ _ _ _ _ Hg).
  - apply tokens_key_not_cache.
  - intros k Hd Ht. by apply getCachedBrief_lookup_other.
  - intros k Hd Ht. by apply clearCache_lookup_other.
Qed.

(** X14: a refresh ([invalidateCache], then [generateBrief] without
    settings) always generates: whatever the storage held, the brief is
    assembled from what the sources answer for the last 96 hours of
    mail and the next 24 hours of calendar, is stamped with the current
    instant, and is what the cache holds afterwards, with the instant of
    its storing as the last brief timestamp. *)
Theorem onRefresh_regenerates gmail calendar clock (st : Storage) :
  let r := BriefScreen.onRefresh gmail calendar clock st in
  r.1 = assemble (t_id clock) (t_stamp clock)
          (GmailService.getEmailsFromWindow gmail 96 (t_fetch clock))
          (CalendarService.getEventsFromWindow calendar 24 (t_fetch clock)) ∧
  timestamp r.1 = t_stamp clock ∧
  r.2 !! BRIEF_CACHE_KEY = Some (json r.1) ∧
  getLastBriefTimestamp r.2 = Some (Some (t_cache clock)) ∧
  getLastBriefTimestamp (invalidateCache st) = None ∧
  (getScheduledBrief (t_check clock) (invalidateCache st)).1 = None.
Proof.
  intros r. unfold r, BriefScreen.onRefresh, BriefScreen.loadBrief, invalidateCache.
  assert (getCachedBrief (t_check clock) (clearCache st) = (None, clearCache st)) as Hmiss.
  { apply getCachedBrief_absent. left. apply clearCache_lookup_data. }
  rewrite (generateBrief_miss _ _ _ _ _ _ Hmiss). unfold complete. simpl.
  split; [done|]. split; [done|]. split; [apply cacheBrief_lookup_data|].
  unfold getLastBriefTimestamp, getScheduledBrief.
  rewrite cacheBrief_lookup_time, clearCache_lookup_time, Hmiss. done.
Qed.

(** X15: of two calls of [generateBrief] that both miss a cold cache,
    the one whose sources answer last decides what the cache holds: a
    later call within 5 minutes is served that brief, whichever call
    started first. *)
Theorem concurrent_calls_last_writer (st : Storage) (t0 t1 t2 : Z) (c0 c1 : Clock)
    (e0 e1 : list EmailThread.t) (v0 v1 : list CalendarEvent.t) :
  st !! BRIEF_CACHE_KEY = None →
  t2 - t_cache c1 ≤ 5 * 60 * 1000 → t2 - t_cache c0 ≤ 5 * 60 * 1000 →
  (getCachedBrief t2
     (storage (run [cache_read 0 t0; cache_read 1 t1;
                    sources_answered 0 c0 e0 v0; sources_answered 1 c1 e1 v1]
                 (invoked 2 st)))).1
    = Some (assemble (t_id c1) (t_stamp c1) e1 v1) ∧
  (getCachedBrief t2
     (storage (run [cache_read 0 t0; cache_read 1 t1;
                    sources_answered 1 c1 e1 v1; sources_answered 0 c0 e0 v0]
                 (invoked 2 st)))).1
    = Some (assemble (t_id c0) (t_stamp c0) e0 v0).
Proof.
  intros Hcold H1 H0.
  assert (∀ now, getCachedBrief now st = (None, st)) as Hmiss
    by (intros now; apply getCachedBrief_absent; by left).
  unfold run, invoked. simpl. rewrite !Hmiss. simpl. rewrite ?Hmiss. simpl.
  split.
  - rewrite (getCachedBrief_fresh t2 _ (assemble (t_id c1) (t_stamp c1) e1 v1) (t_cache c1));
      [done|apply cacheBrief_lookup_data|apply cacheBrief_lookup_time|].
    unfold BRIEF_CACHE_DURATION. lia.
  - rewrite (getCachedBrief_fresh t2 _ (assemble (t_id c0) (t_stamp c0) e0 v0) (t_cache c0));
      [done|apply cacheBrief_lookup_data|apply cacheBrief_lookup_time|].
    unfold BRIEF_CACHE_DURATION. lia.
Qed.

Lemma concurrent_calls_last_writer_witness :
  (∅ : Storage) !! BRIEF_CACHE_KEY = None ∧
  (getCachedBrief 50
     (storage (run [cache_read 0 10; cache_read 1 20;
                    sources_answered 0 (clock_at 30) [] [];
                    sources_answered 1 (clock_at 40) [] []]
                 (invoked 2 ∅)))).1
    = Some (empty_brief 40).
Proof.
  split; [reflexivity|].
  apply (concurrent_calls_last_writer ∅ 10 20 50 (clock_at 30) (clock_at 40) [] [] [] []).
  - reflexivity.
  - simpl. lia.
  - simpl. lia.
Defined.

(** X16: in a brief that [generateBrief] returns, the list shown with
    the toggle off is a prefix of the list shown with it on, and the
    toggle is rendered exactly when the two lists differ. *)
Theorem toggle_shown_when_emails_hidden settings gmail calendar clock (st st' : Storage)
    (b : BriefData.t) :
  cache_briefs_cut st →
  generateBrief settings gmail calendar clock st = (b, st') →
  BriefScreen.emailsToShow false b `prefix_of` BriefScreen.emailsToShow true b ∧
  (BriefScreen.toggle_shown b = true ↔
   BriefScreen.emailsToShow false b ≠ BriefScreen.emailsToShow true b).
Proof.
  intros Hc Hg.
  assert (topEmails b = take 3 (allEmails b)) as Hcut.
  { pose proof (getCachedBrief_stored (t_check clock) st) as Hst.
    destruct (getCachedBrief (t_check clock) st) as [[b0|] st0] eqn:Hl.
    - rewrite (generateBrief_hit _ _ _ _ _ _ _ Hl) in Hg. simplify_eq.
      by apply Hc, Hst.
    - rewrite (generateBrief_miss _ _ _ _ _ _ Hl) in Hg. unfold complete in Hg.
      by simplify_eq. }
  unfold BriefScreen.emailsToShow, BriefScreen.toggle_shown. rewrite Hcut.
  split; [apply prefix_take|].
  rewrite bool_decide_eq_true. split.
  - intros Hlen Heq. apply (f_equal length) in Heq. rewrite length_take in Heq. lia.
  - intros Hne. destruct (decide (3 < length (allEmails b))%nat); [done|].
    destruct Hne. apply take_ge. lia.
Qed.

(** With five emails fetched the toggle is shown, and three emails
    are listed while it is off. *)
Lemma toggle_shown_when_emails_hidden_witness :
  cache_briefs_cut ∅ ∧
  BriefScreen.toggle_shown
    (generateBrief None busy_gmail quiet_calendar (clock_at 36000000) ∅).1 = true ∧
  BriefScreen.emailsToShow false
    (generateBrief None busy_gmail quiet_calendar (clock_at 36000000) ∅).1
  `prefix_of`
  BriefScreen.emailsToShow true
    (generateBrief None busy_gmail quiet_calendar (clock_at 36000000) ∅).1.
Proof.
  split; [intros b; by rewrite lookup_empty|]. split; [vm_compute; reflexivity|].
  eapply (toggle_shown_when_emails_hidden None busy_gmail quiet_calendar
            (clock_at 36000000) ∅).
  - intros b. by rewrite lookup_empty.
  - apply surjective_pairing.
Defined.
End brief_cache_properties.

(** ** Top emails, summaries and urgency analysis *)

Section summary_properties.
Import BriefData BriefService.

(** X17: in a brief that [generateBrief] generates, the emails are in
    ranking order and each of the top emails ranks before (or ties
    with) every email left out of the top three. *)
Theorem top_emails_outrank_the_rest settings gmail calendar clock (st st' : Storage)
    (b : BriefData.t) :
  (getCachedBrief (t_check clock) st).1 = None →
  generateBrief settings gmail calendar clock st = (b, st') →
  StronglySorted ranks_before (allEmails b) ∧
  (∀ t u, t ∈ topEmails b → u ∈ drop 3 (allEmails b) → ranks_before t u) ∧
  Forall (λ t, EmailThread.rationale t ≠ None) (allEmails b).
Proof.
  intros Hmiss Hg.
  destruct (getCachedBrief (t_check clock) st) as [cached st0] eqn:Hl.
  simpl in Hmiss. subst cached.
  rewrite (generateBrief_miss _ _ _ _ _ _ Hl) in Hg. unfold complete in Hg.
  injection Hg as <- _. simpl.
  pose proof (getEmailsFromWindow_sorted gmail
    (window_or (AppSettings.emailWindow <$> settings) 96) (t_fetch clock)) as Hs.
  split; [exact Hs|]. split.
  - intros t u Ht Hu. rewrite <- (take_drop 3) in Hs.
    by eapply StronglySorted_app_1_elem_of.
  - apply Forall_forall.
    intros t (i & threadData & t0 & _ & _ & ->)%getEmailsFromWindow_parsed. done.
Qed.

(** Five emails are fetched, two of them left out of the top
    three. *)
Lemma top_emails_outrank_the_rest_witness :
  (getCachedBrief (t_check (clock_at 36000000)) ∅).1 = None ∧
  EmailThread.id <$>
    drop 3 (allEmails (generateBrief None busy_gmail quiet_calendar (clock_at 36000000) ∅).1)
    = ["m4"; "m5"] ∧
  StronglySorted ranks_before
    (allEmails (generateBrief None busy_gmail quiet_calendar (clock_at 36000000) ∅).1).
Proof.
  split; [reflexivity|]. split; [vm_compute; reflexivity|].
  eapply (top_emails_outrank_the_rest None busy_gmail quiet_calendar (clock_at 36000000) ∅).
  - reflexivity.
  - apply surjective_pairing.
Defined.

Lemma str_app_assoc (a b c : string) : (a +:+ b) +:+ c = a +:+ b +:+ c.
Proof.
  induction a as [|x a IH]; [done|].
  change (String x ((a +:+ b) +:+ c) = String x (a +:+ b +:+ c)). by rewrite IH.
Qed.

Lemma str_length_app (a b : string) :
  String.length (a +:+ b) = (String.length a + String.length b)%nat.
Proof.
  induction a as [|x a IH]; [done|].
  change (S (String.length (a +:+ b)) = S (String.length a + String.length b)).
  by rewrite IH.
Qed.

Lemma split_nonempty sep s : JS.split sep s ≠ [].
Proof.
  destruct s as [|c s]; simpl; [done|].
  case_bool_decide; [done|]. by destruct (JS.split sep s).
Qed.

Lemma join_cons sep w ws :
  ws ≠ [] → JS.join sep (w :: ws) = w +:+ sep +:+ JS.join sep ws.
Proof. by destruct ws. Qed.

(** [split], then [join] on the same separator, gives the text back. *)
Lemma join_split (sep : ascii) s : JS.join (String sep "") (JS.split sep s) = s.
Proof.
  induction s as [|c s IH]; [done|]. simpl.
  pose proof (split_nonempty sep s) as Hne.
  case_bool_decide as Hc.
  - rewrite join_cons by done. rewrite IH, Hc. done.
  - destruct (JS.split sep s) as [|w ws]; [done|].
    destruct ws as [|w' ws].
    + change (String c w = String c s). change (w = s) in IH. by rewrite IH.
    + change (String c (w +:+ String sep "" +:+ JS.join (String sep "") (w' :: ws))
              = String c s).
      change (w +:+ String sep "" +:+ JS.join (String sep "") (w' :: ws) = s) in IH.
      by rewrite IH.
Qed.

Lemma join_app sep l1 l2 :
  l1 ≠ [] → l2 ≠ [] →
  JS.join sep (l1 ++ l2) = JS.join sep l1 +:+ sep +:+ JS.join sep l2.
Proof.
  intros H1 H2. induction l1 as [|w l1 IH]; [done|].
  destruct l1 as [|w' l1].
  - simpl. by destruct l2.
  - change ((w :: w' :: l1) ++ l2) with (w :: ((w' :: l1) ++ l2)).
    rewrite join_cons by done. rewrite IH by done.
    rewrite (join_cons sep w (w' :: l1)) by done.
    by rewrite !str_app_assoc.
Qed.

(** X18: [mockThreadSummary] returns a snippet of at most 15 words
    (words are separated by single spaces) unchanged; of a longer
    snippet it returns the first 15 words, which are the start of the
    snippet, followed by "...". *)
Theorem mockThreadSummary_first_words (thread : EmailThread.t) :
  let words := JS.split " " (EmailThread.snippet thread) in
  JS.join " " words = EmailThread.snippet thread ∧
  ((length words ≤ 15)%nat →
   LLMService.mockThreadSummary thread = EmailThread.snippet thread) ∧
  ((15 < length words)%nat →
   ∃ rest,
     EmailThread.snippet thread = JS.join " " (take 15 words) +:+ " " +:+ rest ∧
     LLMService.mockThreadSummary thread = JS.join " " (take 15 words) +:+ "...").
Proof.
  intros words. pose proof (join_split " " (EmailThread.snippet thread)) as Hjs.
  fold words in Hjs. split; [exact Hjs|].
  unfold LLMService.mockThreadSummary. fold words. split.
  - intros Hle. rewrite take_ge by done. rewrite Hjs.
    rewrite bool_decide_eq_false_2 by lia. done.
  - intros Hlt. exists (JS.join " " (drop 15 words)).
    assert (EmailThread.snippet thread
            = JS.join " " (take 15 words) +:+ " " +:+ JS.join " " (drop 15 words)) as Heq.
    { rewrite <- Hjs at 1. rewrite <- (take_drop 15 words) at 1.
      apply join_app.
      - intros Hn. apply (f_equal length) in Hn. rewrite length_take in Hn.
        change (length (@nil string)) with 0%nat in Hn. lia.
      - intros Hn. apply (f_equal length) in Hn. rewrite length_drop in Hn.
        change (length (@nil string)) with 0%nat in Hn. lia. }
    split; [exact Heq|].
    rewrite bool_decide_eq_true_2; [done|].
    rewrite Heq at 1. rewrite !str_length_app. simpl. lia.
Qed.


End summary_properties.

(** ** The activity log *)

Section activity_log_properties.
Import ActivityLogEntry ActivityLogService.

(** The sum of the counts of a by-day table. *)
Definition day_total (m : gmap string nat) : nat :=
  map_fold (λ _ n acc, (n + acc)%nat) 0%nat m.

Lemma day_total_bump (m : gmap string nat) k :
  day_total (<[k := (default 0 (m !! k) + 1)%nat]> m) = S (day_total m).
Proof.
  unfold day_total. destruct (m !! k) as [n|] eqn:Hk; simpl.
  - rewrite <- (insert_delete_eq m k).
    rewrite map_fold_insert_L; [|intros; lia|apply lookup_delete_eq].
    rewrite (map_fold_delete_L _ _ k n m); [lia|intros; lia|done].
  - rewrite map_fold_insert_L; [lia|intros; lia|done].
Qed.

Lemma count_entry_totals toDateString stats entry :
  let stats' := count_entry toDateString stats entry in
  totalActivities stats' = totalActivities stats ∧
  (briefsGenerated stats' + emailsSent stats' + emailsSnoozed stats' + draftsGenerated stats'
   = S (briefsGenerated stats + emailsSent stats + emailsSnoozed stats
        + draftsGenerated stats))%nat ∧
  day_total (activitiesByDay stats') = S (day_total (activitiesByDay stats)).
Proof.
  unfold count_entry. destruct (action entry); simpl;
    (split; [done|]; split; [lia|apply day_total_bump]).
Qed.

Lemma count_entries_totals toDateString stats entries :
  let stats' := foldl (count_entry toDateString) stats entries in
  totalActivities stats' = totalActivities stats ∧
  (briefsGenerated stats' + emailsSent stats' + emailsSnoozed stats' + draftsGenerated stats'
   = briefsGenerated stats + emailsSent stats + emailsSnoozed stats + draftsGenerated stats
     + length entries)%nat ∧
  day_total (activitiesByDay stats') = (day_total (activitiesByDay stats) + length entries)%nat.
Proof.
  revert stats. induction entries as [|e entries IH]; intros stats; simpl.
  - repeat split; lia.
  - destruct (IH (count_entry toDateString stats e)) as (H1 & H2 & H3).
    destruct (count_entry_totals toDateString stats e) as (E1 & E2 & E3).
    simpl in *. rewrite H1, H2, H3, E1, E3. repeat split; lia.
Qed.

(** X20: in the statistics of [getActivityStats], the four counters by
    action add up to the total number of activities, and so do the
    counts of the by-day table; the total is the number of entries of
    the last [days] days. *)
Theorem getActivityStats_totals (toDateString : Z → string) (days now : Z) (log : Log) :
  let stats := getActivityStats toDateString days now log in
  (briefsGenerated stats + emailsSent stats + emailsSnoozed stats + draftsGenerated stats
   = totalActivities stats)%nat ∧
  day_total (activitiesByDay stats) = totalActivities stats ∧
  totalActivities stats
  = length (filter (λ e, now - days * 24 * 60 * 60 * 1000 ≤ timestamp e ≤ now)
              (getActivityLog None log)) ∧
  (totalActivities stats ≤ length (getActivityLog None log))%nat.
Proof.
  intros stats. unfold stats, getActivityStats.
  set (entries := getActivityLogForTimeRange _ _ log).
  destruct (count_entries_totals toDateString (mkStats (length entries) 0 0 0 0 ∅) entries)
    as (H1 & H2 & H3).
  simpl in *. rewrite H1.
  split; [lia|]. split; [rewrite H3; unfold day_total; by rewrite map_fold_empty|].
  assert (entries = filter (λ e, now - days * 24 * 60 * 60 * 1000 ≤ timestamp e ≤ now)
                      (getActivityLog None log)) as ->.
  { unfold entries, getActivityLogForTimeRange.
    induction (getActivityLog None log) as [|e l IH]; [done|].
    rewrite filter_cons. simpl. rewrite IH.
    destruct (decide _) as [Hd|Hd].
    - by rewrite !bool_decide_eq_true_2 by lia.
    - destruct (bool_decide (now - days * 24 * 60 * 60 * 1000 ≤ timestamp e)) eqn:E1;
        [|done].
      destruct (bool_decide (timestamp e ≤ now)) eqn:E2; [|done].
      apply bool_decide_eq_true in E1. apply bool_decide_eq_true in E2. lia. }
  split; [done|]. apply length_filter.
Qed.

(** X21: [logActivity] puts the new entry first and keeps at most
    1000 entries: the log it writes is the new entry followed by the
    earlier entries in their order, cut after 1000 entries, so that only
    the oldest entry of a full log is lost. *)
Theorem logActivity_newest_first (a : Action) (d : string) (th : option string)
    (t_id t_stamp : Z) (suffix : string) (log : Log) :
  let earlier := getActivityLog None log in
  let written := getActivityLog None (logActivity a d th t_id t_stamp suffix log) in
  ∃ entry,
    action entry = a ∧ details entry = d ∧ threadId entry = th ∧
    timestamp entry = t_stamp ∧
    head written = Some entry ∧
    written = entry :: take 999 earlier ∧
    (length written ≤ 1000)%nat ∧
    ((length earlier < 1000)%nat → written = entry :: earlier) ∧
    getTotalActivityCount (logActivity a d th t_id t_stamp suffix log)
    = Nat.min (S (getTotalActivityCount log)) 1000.
Proof.
  intros earlier written.
  exists (mk ("activity_" +:+ pretty t_id +:+ "_" +:+ suffix) t_stamp a d th).
  unfold written, logActivity, getTotalActivityCount, MAX_LOG_ENTRIES. fold earlier.
  change (getActivityLog None (Some ?l)) with l.
  change (take 1000 (?e :: earlier)) with (e :: take 999 earlier).
  repeat split; try done.
  - simpl. rewrite length_take. lia.
  - intros Hlt. by rewrite take_ge by lia.
  - simpl. rewrite length_take. lia.
Qed.

(** X22: the limit of [getActivityLog] and of [getActivityLogByType]:
    a positive limit gives the first entries up to the limit, a limit
    of 0 is ignored and gives all entries, and a negative limit drops
    that many entries from the end. *)
Theorem getActivityLog_limit (limit : Z) (a : Action) (log : Log) :
  let entries := getActivityLog None log in
  let typed := filter (λ e, action e = a) entries in
  getActivityLog (Some 0) log = entries ∧
  (0 < limit → getActivityLog (Some limit) log = take (Z.to_nat limit) entries) ∧
  (limit < 0 →
   getActivityLog (Some limit) log = take (length entries - Z.to_nat (- limit)) entries) ∧
  getActivityLogByType a None log = typed ∧
  getActivityLogByType a (Some 0) log = typed ∧
  (0 < limit → getActivityLogByType a (Some limit) log = take (Z.to_nat limit) typed) ∧
  (limit < 0 →
   getActivityLogByType a (Some limit) log
   = take (length typed - Z.to_nat (- limit)) typed) ∧
  (∀ l, getActivityLog l None = []).
Proof.
  intros entries typed.
  assert (List.filter (λ e, bool_decide (action e = a)) entries = typed) as Htyped.
  { unfold typed. induction entries as [|e l IH]; [done|].
    rewrite filter_cons. simpl. rewrite IH.
    by destruct (decide (action e = a)) as [Hd|Hd];
      [rewrite bool_decide_eq_true_2|rewrite bool_decide_eq_false_2]. }
  unfold getActivityLogByType. fold entries. rewrite Htyped.
  unfold entries, getActivityLog, slice0. destruct log as [l|]; simpl.
  - split; [done|]. split.
    { intros Hpos. by rewrite !bool_decide_eq_false_2 by lia. }
    split.
    { intros Hneg. rewrite bool_decide_eq_false_2 by lia.
      rewrite bool_decide_eq_true_2 by lia. f_equal. lia. }
    split; [done|]. split; [done|]. split.
    { intros Hpos. by rewrite !bool_decide_eq_false_2 by lia. }
    split; [|done].
    intros Hneg. rewrite bool_decide_eq_false_2 by lia.
    rewrite bool_decide_eq_true_2 by lia. f_equal. lia.
  - unfold typed, entries. simpl. rewrite !filter_nil.
    repeat split; intros; repeat case_bool_decide; by rewrite ?take_nil.
Qed.

Lemma getActivityLog_limit_witness :
  0 < 2 ∧
  getActivityLog (Some 2)
    (Some [mk "1" 30 email_sent "c" None; mk "2" 20 email_sent "b" None;
           mk "3" 10 email_sent "a" None])
  = [mk "1" 30 email_sent "c" None; mk "2" 20 email_sent "b" None] ∧
  -1 < 0 ∧
  getActivityLogByType email_sent (Some (-1))
    (Some [mk "1" 30 email_sent "c" None; mk "2" 20 brief_generated "b" None;
           mk "3" 10 email_sent "a" None])
  = [mk "1" 30 email_sent "c" None].
Proof.
  split; [lia|]. split.
  - apply (getActivityLog_limit 2 email_sent
      (Some [mk "1" 30 email_sent "c" None; mk "2" 20 email_sent "b" None;
             mk "3" 10 email_sent "a" None])).
    lia.
  - split; [lia|].
    destruct (getActivityLog_limit (-1) email_sent
      (Some [mk "1" 30 email_sent "c" None; mk "2" 20 brief_generated "b" None;
             mk "3" 10 email_sent "a" None])) as (_ & _ & _ & _ & _ & _ & Hneg & _).
    rewrite Hneg by lia. reflexivity.
Defined.
End activity_log_properties.

Section activity_maintenance_properties.
Import ActivityLogEntry ActivityLogService.

Lemma list_filter_stdpp {A : Type} (P : A → Prop) `{!∀ x, Decision (P x)} (l : list A) :
  List.filter (λ x, bool_decide (P x)) l = filter P l.
Proof.
  induction l as [|x l IH]; [done|].
  rewrite filter_cons. simpl. rewrite IH.
  by destruct (decide (P x)); [rewrite bool_decide_eq_true_2|rewrite bool_decide_eq_false_2].
Qed.

(** X23: [checkStorageHealth] asks for a clean-up exactly when the log
    holds 1000 entries or more, which implies that it is near its limit
    (more than 800); after [logActivity] that is exactly when the log
    held 999 entries or more before.  [performMaintenance] leaves a
    log of fewer than 1000 entries as it is, and otherwise keeps, in
    their order, exactly the entries that are not older than the
    cut-off date. *)
Theorem maintenance_when_log_is_full (cutoffDate : Z) (log : Log)
    (a : Action) (d : string) (th : option string) (t_id t_stamp : Z) (suffix : string) :
  let health := checkStorageHealth log in
  let total := getTotalActivityCount log in
  health.1.1 = total ∧
  (health.2 = true ↔ (1000 ≤ total)%nat) ∧
  (health.1.2 = true ↔ (800 < total)%nat) ∧
  (health.2 = true → health.1.2 = true) ∧
  ((checkStorageHealth (logActivity a d th t_id t_stamp suffix log)).2 = true ↔
   (999 ≤ total)%nat) ∧
  ((total < 1000)%nat → AppInitializer.performMaintenance cutoffDate log = log) ∧
  ((1000 ≤ total)%nat →
   getActivityLog None (AppInitializer.performMaintenance cutoffDate log)
   = filter (λ e, cutoffDate ≤ timestamp e) (getActivityLog None log)) ∧
  (getTotalActivityCount (AppInitializer.performMaintenance cutoffDate log) ≤ total)%nat.
Proof.
  intros health total.
  unfold health, total, checkStorageHealth, getTotalActivityCount, MAX_LOG_ENTRIES,
    AppInitializer.performMaintenance, checkStorageHealth, MAX_LOG_ENTRIES. simpl.
  rewrite !bool_decide_eq_true.
  split; [done|]. split; [done|]. split; [done|]. split; [lia|]. split.
  { rewrite length_take. lia. }
  split; [intros Hlt; by rewrite bool_decide_eq_false_2 by lia|].
  split.
  { intros Hfull. rewrite bool_decide_eq_true_2 by lia. unfold clearOldEntries.
    change (getActivityLog None (Some ?l)) with l. apply list_filter_stdpp. }
  case_bool_decide; [|done]. unfold clearOldEntries.
  change (getActivityLog None (Some ?l)) with l.
  rewrite list_filter_stdpp. apply length_filter.
Qed.

Lemma includes_empty s : JS.includes s "" = true.
Proof. by destruct s. Qed.

Lemma toLowerCase_idemp s : JS.toLowerCase (JS.toLowerCase s) = JS.toLowerCase s.
Proof.
  induction s as [|c s IH]; [done|]. simpl. rewrite IH. f_equal.
  by destruct c as [[] [] [] [] [] [] [] []]; vm_compute.
Qed.

(** X24: [searchActivityLog] returns a sub-list of the log, in the
    log's order, whose members are exactly the entries whose details or
    action name contain the query, both taken in lower case: the search
    ignores the case of the query, and an empty query returns the whole
    log. *)
Theorem searchActivityLog_matches (query : string) (log : Log) :
  searchActivityLog "" log = getActivityLog None log ∧
  searchActivityLog (JS.toLowerCase query) log = searchActivityLog query log ∧
  searchActivityLog query log `sublist_of` getActivityLog None log ∧
  ∀ e, e ∈ searchActivityLog query log ↔
       e ∈ getActivityLog None log ∧
       ((∃ pre post, JS.toLowerCase (details e) = pre +:+ JS.toLowerCase query +:+ post) ∨
        (∃ pre post, action_text (action e) = pre +:+ JS.toLowerCase query +:+ post)).
Proof.
  unfold searchActivityLog. split; [|split; [|split]].
  - change (JS.toLowerCase "") with "".
    induction (getActivityLog None log) as [|e l IH]; [done|].
    simpl. rewrite includes_empty. simpl. by rewrite IH.
  - by rewrite toLowerCase_idemp.
  - induction (getActivityLog None log) as [|e l IH]; [done|].
    simpl. destruct (_ || _); [by apply sublist_skip|by apply sublist_cons].
  - intros e. rewrite list_elem_of_In, filter_In, <- list_elem_of_In.
    rewrite orb_true_iff, !includes_occurs.
    by assert (JS.toLowerCase (action_text (action e)) = action_text (action e)) as ->
      by (by destruct (action e)).
Qed.

(** A query in lower case finds the entry whose details begin with
    the capital letter U+00C9 (code unit 201), and the other way
    round. *)
Example search_accented_capital :
  let entry := mk "4" 40 email_sent (String (ascii_of_nat 201) "tude de march" +:+ "e") None in
  searchActivityLog (String (ascii_of_nat 233) "tude") (Some [entry]) = [entry] ∧
  searchActivityLog (String (ascii_of_nat 201) "TUDE") (Some [entry]) = [entry].
Proof. split; vm_compute; reflexivity. Qed.
End activity_maintenance_properties.
